(** * crayon: neighbourhood-graph library, ensemble merge, diffusion map

    A shallow embedding of the parts of [src/py/nga.py], [src/py/color.py]
    and [src/crayon/dmap.py] that the specification talks about, followed
    by the properties proved of them.

    Conventions.
    - A Python call that can raise returns a [result]; a method that also
      mutates [self] or prints returns a [run]: the object after the call
      (also when the call raised), what was printed, and the result.
    - [float] values that the code only adds, divides and compares are
      rationals ([Q]); NaN and +inf are separate constructors.  Values that
      go through [np.exp] are real numbers ([R]).
    - numpy arrays are lists; index errors are written out. *)

From Stdlib Require Import ZArith QArith Qround Reals Lra Lia Psatz Sorted Ascii.
From stdpp Require Import gmap strings list pretty.

(* ================================================================== *)
(** * Python exceptions, results, and runs                             *)
(* ================================================================== *)

Inductive exn :=
  | KeyError | IndexError | TypeError | ValueError | AttributeError
  | UnboundLocalError | RuntimeError | LinAlgError.

Inductive result (A : Type) :=
  | Ok (a : A)
  | Raise (e : exn).
Arguments Ok {A} a.
Arguments Raise {A} e.

Definition rbind {A B} (r : result A) (k : A -> result B) : result B :=
  match r with Ok a => k a | Raise e => Raise e end.

Definition is_ok {A} (r : result A) : bool :=
  match r with Ok _ => true | Raise _ => false end.

(** What [print] receives.  Arrays and distances are kept as values, not
    rendered. *)
Inductive event :=
  | PrintLine (s : string)
  | PrintAdj (a : list (list Z))
  | PrintDist (radicand : Q).

Record run (S A : Type) := Run { st : S; out : list event; res : result A }.
Arguments Run {S A} st out res.
Arguments st {S A} r.
Arguments out {S A} r.
Arguments res {S A} r.

(** An argument that the code inspects with [type(x) != list] and
    [type(x[0]) != type(C())]: either one object or a Python list of
    objects; an object is an instance of the expected class [C] or
    something else ([Foreign]: an int, a string, [None], ...; it has none of
    the attributes of [C]). *)
Inductive pyobj (C : Type) :=
  | Inst (c : C)
  | Foreign.
Arguments Inst {C} c.
Arguments Foreign {C}.

Inductive pyarg (C : Type) :=
  | One (o : pyobj C)
  | Many (l : list (pyobj C)).
Arguments One {C} o.
Arguments Many {C} l.

(** A loop whose body can raise, collecting what the body returns. *)
Fixpoint mapM {A B} (f : A -> result B) (l : list A) : result (list B) :=
  match l with
  | [] => Ok []
  | a :: l' => rbind (f a) (fun b => rbind (mapM f l') (fun bs => Ok (b :: bs)))
  end.

(** [if type(others) != list: others = list([others])] *)
Definition as_list {C} (others : pyarg C) : list (pyobj C) :=
  match others with
  | One o => [o]
  | Many l => l
  end.

(* ================================================================== *)
(** * nga.py: Graph                                                    *)
(* ================================================================== *)

(** The three arrays that [_crayon.graph(A)] hands back: the adjacency
    matrix, the graphlet degree distribution and the node-wise graphlet
    degree vectors (one row per node). *)
Record Graph := mkGraph {
  adj : list (list Z);
  gdd : list Z;
  gdv : list (list Z)
}.

(** [np.sum(m)] and [np.sum(m,0)] of an integer matrix. *)
Definition np_sum (m : list (list Z)) : Z :=
  foldr Z.add 0%Z (concat m).

Definition np_sum0 (m : list (list Z)) : list Z :=
  match m with
  | [] => []
  | r :: rs => fold_left (zip_with Z.add) rs r
  end.

(** [self.ngdv = np.sum(self.gdv,0) / max(float(np.sum(self.gdv)),1.)] *)
Definition ngdv (g : Graph) : list Q :=
  let total := Z.max (np_sum (gdv g)) 1 in
  map (fun s => inject_Z s / inject_Z total)%Q (np_sum0 (gdv g)).

(** Elementwise difference of two 1-D arrays under numpy broadcasting:
    equal lengths, or one of them of length one. *)
Definition np_sub (v w : list Q) : result (list Q) :=
  if decide (length v = length w) then Ok (zip_with Qminus v w)
  else match v, w with
       | [a], _ => Ok (map (fun b => a - b)%Q w)
       | _, [b] => Ok (map (fun a => a - b)%Q v)
       | _, _ => Raise ValueError
       end.

(** [np.linalg.norm(v)] is the square root of the sum of squares; it is
    kept as its radicand, a non-negative rational. *)
Definition sumsq (v : list Q) : Q :=
  foldr (fun x acc => x * x + acc)%Q 0%Q v.

(** [Graph.__sub__]: radicand of the norm of the difference. *)
Definition graph_sub (g h : Graph) : result Q :=
  rbind (np_sub (ngdv g) (ngdv h)) (fun d => Ok (sumsq d)).

(** [Graph.__eq__]: [self - other == 0.] *)
Definition graph_eq (g h : Graph) : result bool :=
  rbind (graph_sub g h) (fun d => Ok (Qeq_bool d 0)).

(** [Graph.__ne__]: [self - other > 0.] *)
Definition graph_ne (g h : Graph) : result bool :=
  rbind (graph_sub g h) (fun d => Ok (match (0 ?= d)%Q with Lt => true | _ => false end)).

(** [str] of a Python list of ints: [[1, 2, 3]]. *)
Fixpoint py_join (l : list Z) : string :=
  match l with
  | [] => EmptyString
  | [z] => pretty z
  | z :: l' => pretty z +:+ ", " +:+ py_join l'
  end.

Definition py_list_str (l : list Z) : string := "[" +:+ py_join l +:+ "]".

(** [Graph.__str__], with [sig_compression = False] (line 32). *)
Definition str (g : Graph) : string :=
  let s_nodes := pretty (length (adj g)) in
  let s_edges := pretty (np_sum (adj g)) in
  let s_gdd := py_list_str (gdd g) in
  s_nodes +:+ ":" +:+ s_edges +:+ ":" +:+ s_gdd.

(* ================================================================== *)
(** * nga.py: GraphLibrary                                             *)
(* ================================================================== *)

Module GraphLibrary.

(** [sigs] and [graphs] are Python lists, [counts] a numpy array,
    [index] a dict from signature to position. *)
Record t := mk {
  sigs : list string;
  graphs : list Graph;
  counts : list Z;
  index : gmap string nat
}.

(** [__init__] *)
Definition init : t := mk [] [] [] ∅.

(** The [except:] branch of [encounter] (lines 119-123). *)
Definition append (self : t) (sig : string) (G : Graph) (count : Z) : t * nat :=
  let idx := length (graphs self) in
  (mk (sigs self ++ [sig])
      (graphs self ++ [G])
      (counts self ++ [count])
      (<[sig := idx]> (index self)),
   idx).

(** The [try:] block of [encounter] with its bare [except:] (lines
    115-123): a missing key and an index outside [counts] both end in
    the append branch. *)
Definition register (self : t) (sig : string) (G : Graph) (count : Z) : t * nat :=
  match index self !! sig with
  | Some idx =>
      match counts self !! idx with
      | Some c =>
          (mk (sigs self) (graphs self) (<[idx := (c + count)%Z]> (counts self))
              (index self),
           idx)
      | None => append self sig G count
      end
  | None => append self sig G count
  end.

(** [encounter(self,G,count=1,add=True)] *)
Definition encounter (self : t) (G : Graph) (count : Z) : run t nat :=
  let sig := str G in
  let '(self', idx) := register self sig G count in
  match graphs self' !! idx with
  | None => Run self' [] (Raise IndexError)
  | Some stored =>
      match graph_ne stored G with
      | Raise e => Run self' [] (Raise e)
      | Ok true =>
          Run self'
              [PrintAdj (adj G); PrintAdj (adj stored);
               PrintDist (match graph_sub stored G with Ok d => d | Raise _ => 0%Q end)]
              (Raise RuntimeError)
      | Ok false => Run self' [] (Ok idx)
      end
  end.

(** [find(self,G)] *)
Definition find (self : t) (G : Graph) : option nat :=
  index self !! str G.

(** The inner loop of [collect] over one other library, from position
    [idx] on: [for idx in range(len(other.graphs))]. *)
Fixpoint collect_graphs (self : t) (outp : list event) (other : t)
         (use_counts : bool) (gs : list Graph) (idx : nat) : run t unit :=
  match gs with
  | [] => Run self outp (Ok tt)
  | G :: gs' =>
      match (if use_counts then counts other !! idx else Some 0%Z) with
      | None => Run self outp (Raise IndexError)
      | Some c =>
          let r := encounter self G c in
          match res r with
          | Raise e => Run (st r) (outp ++ out r) (Raise e)
          | Ok _ => collect_graphs (st r) (outp ++ out r) other use_counts gs' (S idx)
          end
      end
  end.

(** The outer loop of [collect]: [for other in others]. *)
Fixpoint collect_loop (self : t) (outp : list event)
         (others : list (pyobj t)) (use_counts : bool) : run t unit :=
  match others with
  | [] => Run self outp (Ok tt)
  | Foreign :: _ => Run self outp (Raise AttributeError)
  | Inst other :: rest =>
      let r := collect_graphs self outp other use_counts (graphs other) 0 in
      match res r with
      | Raise e => r
      | Ok _ => collect_loop (st r) (out r) rest use_counts
      end
  end.

(** [collect(self,others,counts=True)] *)
Definition collect (self : t) (others : pyarg t) (use_counts : bool) : run t unit :=
  let others := as_list others in
  match others with
  | [] => Run self [] (Raise IndexError)
  | Foreign :: _ => Run self [] (Raise TypeError)
  | Inst _ :: _ => collect_loop self [] others use_counts
  end.

End GraphLibrary.

(* ================================================================== *)
(** * nga.py: Ensemble                                                 *)
(* ================================================================== *)

(** A Python dict with integer keys, in insertion order. *)
Section Dict.
Context {V : Type}.

Fixpoint dict_get (k : nat) (d : list (nat * V)) : option V :=
  match d with
  | [] => None
  | (k', v) :: d' => if decide (k = k') then Some v else dict_get k d'
  end.

(** [key in d] *)
Definition dict_mem (k : nat) (d : list (nat * V)) : bool :=
  match dict_get k d with Some _ => true | None => false end.

(** [d[key] = val] *)
Fixpoint dict_set (k : nat) (v : V) (d : list (nat * V)) : list (nat * V) :=
  match d with
  | [] => [(k, v)]
  | (k', v') :: d' =>
      if decide (k = k') then (k, v) :: d' else (k', v') :: dict_set k v d'
  end.
End Dict.

(** A cell of the distance matrix: [np.Inf], or a computed norm kept as
    its radicand. *)
Inductive cell :=
  | Inf
  | Dist (radicand : Q).

(** [a[idx]] for an index array [idx] (numpy fancy indexing). *)
Fixpoint take_idx {A} (a : list A) (idx : list nat) : result (list A) :=
  match idx with
  | [] => Ok []
  | i :: idx' =>
      match a !! i with
      | None => Raise IndexError
      | Some x => rbind (take_idx a idx') (fun xs => Ok (x :: xs))
      end
  end.

(** [np.argwhere(mask).flatten()]: the positions, in increasing order,
    at which [P] holds; [i] is the position of the head of [a]. *)
Fixpoint argwhere_from {A} (P : A -> bool) (i : nat) (a : list A) : list nat :=
  match a with
  | [] => []
  | x :: a' =>
      if P x then i :: argwhere_from P (S i) a' else argwhere_from P (S i) a'
  end.

(** [np.argwhere(a == x).flatten()] *)
Definition argwhere_eq (a : list nat) (x : nat) : list nat :=
  argwhere_from (fun y => bool_decide (y = x)) 0 a.

(** [np.argwhere(a >= x).flatten()] *)
Definition argwhere_ge (a : list Z) (x : Z) : list nat :=
  argwhere_from (fun y => bool_decide (x <= y)%Z) 0 a.

Module Ensemble.

(** A frame's [Snapshot.lookup]: signature to the particles carrying it. *)
Definition lookup : Type := list (string * list nat).

(** The attributes of an Ensemble that the modelled methods touch.
    [lm_idx] and [lm_sigs] do not exist before [prune] ([None] here is
    a missing attribute); [dists], [valid_cols] and [valid_rows] start
    as Python [None]. *)
Record t := mk {
  library : GraphLibrary.t;
  lookups : list (nat * lookup);
  lm_idx : option (list nat);
  lm_sigs : option (list string);
  dists : option (list (list cell));
  valid_cols : option (list nat);
  valid_rows : option (list nat);
  master : bool
}.

(** [__init__]; [is_master] is what [parallel.info()] reports. *)
Definition init (is_master : bool) : t :=
  mk GraphLibrary.init [] None None None None None is_master.

Definition set_library (self : t) (l : GraphLibrary.t) : t :=
  mk l (lookups self) (lm_idx self) (lm_sigs self) (dists self)
     (valid_cols self) (valid_rows self) (master self).

Definition set_lookups (self : t) (lk : list (nat * lookup)) : t :=
  mk (library self) lk (lm_idx self) (lm_sigs self) (dists self)
     (valid_cols self) (valid_rows self) (master self).

Definition set_landmarks (self : t) (idx : list nat) (sg : list string) : t :=
  mk (library self) (lookups self) (Some idx) (Some sg) (dists self)
     (valid_cols self) (valid_rows self) (master self).

Definition set_lm_idx (self : t) (idx : list nat) : t :=
  mk (library self) (lookups self) (Some idx) (lm_sigs self) (dists self)
     (valid_cols self) (valid_rows self) (master self).

Definition set_dists (self : t) (d : list (list cell)) : t :=
  mk (library self) (lookups self) (lm_idx self) (lm_sigs self) (Some d)
     (valid_cols self) (valid_rows self) (master self).

Definition set_valid_cols (self : t) (c : list nat) : t :=
  mk (library self) (lookups self) (lm_idx self) (lm_sigs self) (dists self)
     (Some c) (valid_rows self) (master self).

Definition set_valid_rows (self : t) (r : list nat) : t :=
  mk (library self) (lookups self) (lm_idx self) (lm_sigs self) (dists self)
     (valid_cols self) (Some r) (master self).

Definition dup_warning : string :=
  "Warning: duplicate lookup key detected during Ensemble.collect".

(** Lines 300-303: [for key, val in other.lookups.items()]. *)
Fixpoint merge_lookups (lk : list (nat * lookup)) (outp : list event)
         (items : list (nat * lookup)) : list (nat * lookup) * list event :=
  match items with
  | [] => (lk, outp)
  | (key, val) :: rest =>
      let outp' := if dict_mem key lk then outp ++ [PrintLine dup_warning] else outp in
      merge_lookups (dict_set key val lk) outp' rest
  end.

(** Lines 298-303: [for other in others]. *)
Fixpoint collect_loop (self : t) (outp : list event) (others : list (pyobj t))
  : run t unit :=
  match others with
  | [] => Run self outp (Ok tt)
  | Foreign :: _ => Run self outp (Raise AttributeError)
  | Inst other :: rest =>
      let r := GraphLibrary.collect (library self) (One (Inst (library other))) true in
      let self1 := set_library self (st r) in
      match res r with
      | Raise e => Run self1 (outp ++ out r) (Raise e)
      | Ok _ =>
          let '(lk, outp') :=
            merge_lookups (lookups self1) (outp ++ out r) (lookups other) in
          collect_loop (set_lookups self1 lk) outp' rest
      end
  end.

(** [collect(self)]; [gathered] is what [self.p.gatherData(self)]
    returned on this rank. *)
Definition collect (self : t) (gathered : pyarg t) : run t unit :=
  if negb (master self) then Run self [] (Ok tt)
  else
    let others := as_list gathered in
    match others with
    | [] => Run self [] (Ok tt)
    | Foreign :: _ => Run self [] (Raise TypeError)
    | Inst _ :: _ =>
        let r := collect_loop self [] others in
        match res r with
        | Raise e => r
        | Ok _ =>
            let n := length (GraphLibrary.graphs (library (st r))) in
            Run (st r)
                (out r ++ [PrintLine ("collection complete, found " +:+ pretty n
                                      +:+ " unique graphs")])
                (Ok tt)
        end
    end.

(** [prune(self,min_freq=None)]; [min_freq = None] is the default
    argument, on which [int(min_freq)] fails. *)
Definition prune (self : t) (min_freq : option Z) : run t unit :=
  if negb (master self) then Run self [] (Ok tt)
  else
    match min_freq with
    | None => Run self [] (Raise RuntimeError)
    | Some f =>
        let n := length (GraphLibrary.sigs (library self)) in
        let idx := argwhere_ge (GraphLibrary.counts (library self)) f in
        let m := length idx in
        match take_idx (GraphLibrary.sigs (library self)) idx with
        | Raise e => Run (set_lm_idx self idx) [] (Raise e)
        | Ok sg =>
            Run (set_landmarks self idx sg)
                [PrintLine ("using " +:+ pretty m +:+ " archetypal graphs as landmarks for "
                            +:+ pretty (Z.of_nat n - Z.of_nat m)%Z +:+ " less common ones")]
                (Ok tt)
        end
    end.

(** ** computeDists *)

(** [self.lm_idx[j]] *)
Definition lm_at (lm : option (list nat)) (j : nat) : result nat :=
  match lm with
  | None => Raise AttributeError
  | Some l => match l !! j with
              | None => Raise IndexError
              | Some x => Ok x
              end
  end.

(** Lines 336-338: the task list, one pair (graph, landmark) per cell, row
    after row. *)
Definition task_list (n m : nat) (lm : option (list nat)) : result (list (nat * nat)) :=
  rbind (mapM (fun i => mapM (fun j => rbind (lm_at lm j) (fun x => Ok (i, x))) (seq 0 m))
              (seq 0 n))
        (fun rows => Ok (concat rows)).

(** [np.zeros( (n,m) ) + np.Inf] *)
Definition inf_matrix (n m : nat) : list (list cell) :=
  replicate n (replicate m Inf).

(** [self.dists[i,jid] = d] *)
Definition set_cell (d : list (list cell)) (i jid : nat) (x : cell)
  : result (list (list cell)) :=
  match d !! i with
  | None => Raise IndexError
  | Some row =>
      if decide (jid < length row) then Ok (<[i := <[jid := x]> row]> d)
      else Raise IndexError
  end.

(** Lines 347-351: [for k in range(len(result_list))], walking
    [task_list] and [result_list] in step. *)
Fixpoint assemble (d : list (list cell)) (lm : option (list nat))
         (tasks : list (nat * nat)) (results : list Q) {struct results}
  : list (list cell) * result unit :=
  match results with
  | [] => (d, Ok tt)
  | r :: results' =>
      match tasks with
      | [] => (d, Raise IndexError)
      | (i, j) :: tasks' =>
          match lm with
          | None => (d, Raise AttributeError)
          | Some l =>
              match argwhere_eq l j with
              | [] => (d, Raise IndexError)
              | jid :: _ =>
                  match set_cell d i jid (Dist r) with
                  | Raise e => (d, Raise e)
                  | Ok d' => assemble d' lm tasks' results'
                  end
              end
          end
      end
  end.

Section ComputeDists.

(** Lines 356-362 and 367-373: the SciPy clustering of the sums of the
    matrix along [axis], up to [np.argwhere(c == c_best).flatten()]. *)
Variable best_cluster : list (list cell) -> nat -> result (list nat).

(** Lines 353-373. *)
Definition detect (self : t) : run t unit :=
  match dists self with
  | None => Run self [] (Raise TypeError)
  | Some d =>
      match best_cluster d 0 with
      | Raise e => Run self [] (Raise e)
      | Ok good_col =>
          match lm_idx self with
          | None => Run self [] (Raise AttributeError)
          | Some lm =>
              match take_idx lm good_col with
              | Raise e => Run self [] (Raise e)
              | Ok lm' =>
                  let self1 := set_valid_cols (set_lm_idx self lm') good_col in
                  match best_cluster d 1 with
                  | Raise e => Run self1 [] (Raise e)
                  | Ok good_row => Run (set_valid_rows self1 good_row) [] (Ok tt)
                  end
              end
          end
      end
  end.

(** [computeDists(self,detect_outliers=True)]; [result_list] is what
    [self.p.computeQueue] returned on this rank. *)
Definition computeDists (self : t) (result_list : list Q) (detect_outliers : bool)
  : run t unit :=
  if negb (master self) then Run self [] (Ok tt)
  else
    let n := length (GraphLibrary.sigs (library self)) in
    match lm_sigs self with
    | None => Run self [] (Raise AttributeError)
    | Some sg =>
        let m := length sg in
        let self1 := set_dists self (inf_matrix n m) in
        match task_list n m (lm_idx self1) with
        | Raise e => Run self1 [] (Raise e)
        | Ok tasks =>
            let '(d, r) := assemble (inf_matrix n m) (lm_idx self1) tasks result_list in
            let self2 := set_dists self1 d in
            match r with
            | Raise e => Run self2 [] (Raise e)
            | Ok _ => if detect_outliers then detect self2 else Run self2 [] (Ok tt)
            end
        end
    end.

End ComputeDists.

End Ensemble.

(* ================================================================== *)
(** * color.py: rankOrderTransform                                     *)
(* ================================================================== *)

Module Color.

(** A float of the coordinate arrays: NaN or a number. *)
Inductive fl :=
  | NaN
  | Num (q : Q).

(** A 2-D array, held by columns: [R.shape = (nrow, length cols)] and
    [R[:,i]] is the [i]-th element of [cols], of length [nrow]. *)
Record ndarray := mkArray {
  nrow : nat;
  cols : list (list fl)
}.

(** [np.isnan] *)
Definition isnan (x : fl) : bool :=
  match x with NaN => true | Num _ => false end.

(** [r[r==r]]: the entries that equal themselves, that is, all but NaN. *)
Fixpoint non_nan (r : list fl) : list Q :=
  match r with
  | [] => []
  | NaN :: r' => non_nan r'
  | Num q :: r' => q :: non_nan r'
  end.

Fixpoint insert_unique (x : Q) (l : list Q) : list Q :=
  match l with
  | [] => [x]
  | y :: l' =>
      match (x ?= y)%Q with
      | Lt => x :: l
      | Eq => l
      | Gt => y :: insert_unique x l'
      end
  end.

(** [np.unique]: the sorted distinct values. *)
Definition np_unique (l : list Q) : list Q :=
  foldr insert_unique [] l.

(** [np.linspace(0.,1.,n)] *)
Definition np_linspace01 (n : nat) : list Q :=
  map (fun i => inject_Z (Z.of_nat i) / inject_Z (Z.of_nat (n - 1)))%Q (seq 0 n).

(** The interpolant of [np.interp] at one number, for increasing sample
    points [xp] with values [fp]: [fp[0]] to the left, [fp[-1]] to the
    right, and [slope*(x - xp[j]) + fp[j]] on the segment that holds [x]. *)
Fixpoint interp_at (x : Q) (xp fp : list Q) : Q :=
  match xp, fp with
  | x0 :: xp', f0 :: fp' =>
      match xp', fp' with
      | x1 :: _, f1 :: _ =>
          match (x ?= x1)%Q with
          | Lt => match (x ?= x0)%Q with
                  | Gt => (f1 - f0) / (x1 - x0) * (x - x0) + f0
                  | _ => f0
                  end
          | _ => interp_at x xp' fp'
          end
      | _, _ => f0
      end
  | _, _ => 0%Q
  end.

(** [np.interp(r,s,x)]: an empty array of sample points is refused with
    a ValueError, and so is [fp] of another length; NaN stays NaN. *)
Definition np_interp (r : list fl) (xp fp : list Q) : result (list fl) :=
  match xp with
  | [] => Raise ValueError
  | _ :: _ =>
      if decide (length fp = length xp) then
        Ok (map (fun v => match v with
                          | NaN => NaN
                          | Num q => Num (interp_at q xp fp)
                          end) r)
      else Raise ValueError
  end.

(** The body of the loop, lines 63-66, for one column. *)
Definition transform_column (r : list fl) : result (list fl) :=
  let s := np_unique (non_nan r) in
  let x := np_linspace01 (length s) in
  np_interp r s x.

(** [coords[nan_idx,:] = 1.] on one column: [mask] marks the rows of
    [nan_idx]. *)
Definition fill_rows (mask : list bool) (c : list fl) : list fl :=
  zip_with (fun (b : bool) v => if b then Num 1 else v) mask c.

(** [rankOrderTransform(R)] *)
Definition rankOrderTransform (R : ndarray) : result ndarray :=
  rbind (mapM transform_column (cols R)) (fun coords =>
    match last coords with
    | None => Raise IndexError
    | Some c_last =>
        let nan_idx := map isnan c_last in
        Ok (mkArray (nrow R) (map (fill_rows nan_idx) coords))
    end).

End Color.

(* ================================================================== *)
(** * dmap.py: DMap                                                    *)
(* ================================================================== *)

(** Stable ascending argsort by insertion; [np.argsort] returns the same
    permutation whenever the keys are pairwise distinct. *)
Section Argsort.
Context {A : Type} (leb : A -> A -> bool).

Fixpoint insert_by (x : nat * A) (l : list (nat * A)) : list (nat * A) :=
  match l with
  | [] => [x]
  | y :: l' => if leb x.2 y.2 then x :: l else y :: insert_by x l'
  end.

Definition argsort (l : list A) : list nat :=
  map fst (foldr insert_by [] (imap (fun i x => (i, x)) l)).
End Argsort.

(** [a[lo:hi]] *)
Definition slice {A} (lo hi : nat) (a : list A) : list A :=
  take (hi - lo) (drop lo a).

Module DMap.

Abbreviation matrix := (list (list R)).

(** What an attribute of a DMap can hold. *)
Inductive value :=
  | VNone
  | VInt (n : nat)
  | VNum (x : R)
  | VVec (v : list R)
  | VMat (m : matrix).

(** The object: its attribute dictionary. *)
Abbreviation obj := (gmap string value).

(** Code that reads and writes [self] and can raise. *)
Definition M (A : Type) : Type := obj -> obj * result A.

Definition ret {A} (a : A) : M A := fun s => (s, Ok a).

Definition bind {A B} (m : M A) (k : A -> M B) : M B :=
  fun s => match m s with
           | (s', Ok a) => k a s'
           | (s', Raise e) => (s', Raise e)
           end.

Definition lift {A} (r : result A) : M A := fun s => (s, r).

(** [self.name] *)
Definition getattr (name : string) : M value :=
  fun s => match s !! name with
           | Some v => (s, Ok v)
           | None => (s, Raise AttributeError)
           end.

(** [self.name = v] *)
Definition setattr (name : string) (v : value) : M unit :=
  fun s => (<[name := v]> s, Ok tt).

#[export] Instance M_ret : MRet M := @ret.
#[export] Instance M_bind : MBind M := fun A B k m => bind m k.

(** A float operand of an arithmetic operator. *)
Definition as_num (v : value) : result R :=
  match v with
  | VNum x => Ok x
  | VInt n => Ok (INR n)
  | _ => Raise TypeError
  end.

Definition as_int (v : value) : result nat :=
  match v with
  | VInt n => Ok n
  | _ => Raise TypeError
  end.

Definition as_vec (v : value) : result (list R) :=
  match v with
  | VVec x => Ok x
  | _ => Raise TypeError
  end.

Definition as_mat (v : value) : result matrix :=
  match v with
  | VMat x => Ok x
  | _ => Raise TypeError
  end.

(** ** Array operations *)

Definition rsum_list (l : list R) : R := foldr Rplus 0%R l.

(** [np.sum(m, axis=1)] *)
Definition sum_axis1 (m : matrix) : list R := map rsum_list m.

(** [m.shape[1]] *)
Definition ncols (m : matrix) : nat := length (hd [] m).

Definition column (j : nat) (m : matrix) : list R :=
  map (fun r => nth j r 0%R) m.

Definition dot (u v : list R) : R := rsum_list (zip_with Rmult u v).

(** [np.matmul(a, b)] *)
Definition matmul (a b : matrix) : matrix :=
  map (fun row => map (fun j => dot row (column j b)) (seq 0 (ncols b))) a.

(** [np.diag(v)] *)
Definition diag (v : list R) : matrix :=
  imap (fun i x => <[i := x]> (replicate (length v) 0%R)) v.

(** [m[idx,:]] and [m[:,idx]] *)
Definition take_rows (m : matrix) (idx : list nat) : result matrix :=
  take_idx m idx.

Definition take_cols (m : matrix) (idx : list nat) : result matrix :=
  mapM (fun row => take_idx row idx) m.

Definition Rleb (x y : R) : bool := if Rle_dec x y then true else false.

(** ** The stages of [compute] *)

(** Lines 32-33: [kernel = np.exp(dists**2 * inv_neg_2eps)] *)
Definition gaussian_kernel (dists : matrix) (epsilon : R) : matrix :=
  let inv_neg_2eps := (-1 / (2 * epsilon))%R in
  map (map (fun d => exp (d ^ 2 * inv_neg_2eps))) dists.

(** Lines 34-35: [np.matmul( np.diag(1./rsum), kernel )] *)
Definition row_normalize (kernel : matrix) : matrix :=
  let rsum := sum_axis1 kernel in
  matmul (diag (map (fun s => (1 / s)%R) rsum)) kernel.

(** Lines 38-43: real parts, descending order, columns 1 to [num_evec]. *)
Definition select (num_evec : nat) (evals : list (R * R)) (evecs : list (list (R * R)))
  : result (list R * matrix) :=
  let evals := map fst evals in
  let evecs := map (map fst) evecs in
  let idx := reverse (argsort Rleb evals) in
  rbind (take_idx evals idx) (fun sorted =>
  rbind (take_cols evecs idx) (fun cols =>
    Ok (slice 1 (1 + num_evec) sorted, map (slice 1 (1 + num_evec)) cols))).

(** Lines 38-43 on the object: what [np.linalg.eig] returned is cut down
    to [self.num_evec] columns and stored. *)
Definition store_selected (ev : list (R * R) * list (list (R * R))) : M unit :=
  n ← getattr "num_evec";
  n ← lift (as_int n);
  kept ← lift (select n ev.1 ev.2);
  setattr "evals" (VVec kept.1);;
  setattr "evecs" (VMat kept.2).

Section External.

(** [np.linalg.eig]: complex eigenvalues and the matrix whose columns are
    the eigenvectors, or LinAlgError. *)
Variable eig : matrix -> result (list (R * R) * list (list (R * R))).
(** [np.power] and [np.median]. *)
Variable np_power : matrix -> R -> matrix.
Variable np_median : matrix -> R.
(** Lines 98-115 of [build], which run once [embed] has returned: the NaN
    backfill and [util.rankTransform]. *)
Variable finish : matrix -> list nat -> list nat -> M unit.

(** [__init__(self, num_evec=4)] *)
Definition init (num_evec : nat) : obj :=
  <["coords" := VNone]> (<["evecs_ny" := VNone]> (<["evecs" := VNone]>
  (<["evals" := VNone]> (<["epsilon" := VNone]> (<["num_evec" := VInt num_evec]>
  (<["alpha" := VNum 1]> ∅)))))).

(** [compute(self,dists,epsilon)] *)
Definition compute (dists : matrix) (epsilon : value) : M unit :=
  setattr "epsilon" epsilon;;
  setattr "dists" (VMat dists);;
  e ← getattr "epsilon";
  eps ← lift (as_num e);
  let kernel := row_normalize (gaussian_kernel dists eps) in
  ev ← lift (eig kernel);
  store_selected ev.

(** Lines 46-48 of [embed]. *)
Definition embed_kernel (dists : matrix) (epsilon : R) : matrix :=
  let d := map (map (fun x => exp (- x ^ 2 / (2 * epsilon)))) dists in
  let inv_rsum := map (fun s => (1 / s)%R) (sum_axis1 d) in
  zip_with (fun row s => map (fun x => (x * s)%R) row) d inv_rsum.

(** [embed(self,dists)] *)
Definition embed (dists : matrix) : M matrix :=
  e ← getattr "epsilon";
  eps ← lift (as_num e);
  let d := embed_kernel dists eps in
  vec ← getattr "eigenvec";
  vec ← lift (as_mat vec);
  val ← getattr "eigenval";
  val ← lift (as_vec val);
  ret (map (fun row => zip_with Rdiv row val) (matmul d vec)).

(** [build(self,dists,landmarks=None,valid_cols=None,valid_rows=None)] *)
Definition build (dists : matrix) (landmarks valid_cols valid_rows : option (list nat))
  : M unit :=
  let valid_rows := default (seq 0 (length dists)) valid_rows in
  let valid_cols := default (seq 0 (ncols dists)) valid_cols in
  a ← getattr "alpha";
  a ← lift (as_num a);
  let alpha_dists := np_power dists a in
  sel ← lift (match landmarks with
               | None =>
                   rbind (take_rows alpha_dists valid_rows) (fun D =>
                   rbind (take_cols D valid_cols) (fun D => Ok (D, None)))
               | Some lm =>
                   rbind (take_rows alpha_dists lm) (fun D =>
                   rbind (take_cols D valid_cols) (fun D =>
                   rbind (take_rows alpha_dists valid_rows) (fun L =>
                   rbind (take_cols L valid_cols) (fun L => Ok (D, Some L)))))
               end);
  e ← getattr "epsilon";
  match e with
  | VNone => setattr "epsilon" (VNum (np_median alpha_dists))
  | _ => ret tt
  end;;
  e ← getattr "epsilon";
  compute sel.1 e;;
  L ← lift (match sel.2 with
            | None => Raise UnboundLocalError
            | Some L => Ok L
            end);
  ny ← embed L;
  setattr "evecs_ny" (VMat ny);;
  finish dists valid_cols valid_rows.

End External.

End DMap.

(* ================================================================== *)
(** * nga.py: GraphLibrary.build and Snapshot                          *)
(* ================================================================== *)

(** A Python dict with string keys, in insertion order. *)
Section StringDict.
Context {V : Type}.

Fixpoint sdict_get (k : string) (d : list (string * V)) : option V :=
  match d with
  | [] => None
  | (k', v) :: d' => if decide (k = k') then Some v else sdict_get k d'
  end.

(** [key in d] *)
Definition sdict_mem (k : string) (d : list (string * V)) : bool :=
  match sdict_get k d with Some _ => true | None => false end.

(** [d[key] = val] *)
Fixpoint sdict_set (k : string) (v : V) (d : list (string * V)) : list (string * V) :=
  match d with
  | [] => [(k, v)]
  | (k', v') :: d' =>
      if decide (k = k') then (k, v) :: d' else (k', v') :: sdict_set k v d'
  end.
End StringDict.

Module LibraryBuild.

Section Build.

(** [Graph(nn)]: the graph that [_crayon.graph] makes of an adjacency
    matrix. *)
Variable Graph_init : list (list Z) -> Graph.

(** Lines 87-90 of [GraphLibrary.build]: every neighbourhood is turned
    into a graph and encountered once; the result is [nn_idx]. *)
Fixpoint build_index (self : GraphLibrary.t) (outp : list event)
         (neighborhoods : list (list (list Z))) : run GraphLibrary.t (list nat) :=
  match neighborhoods with
  | [] => Run self outp (Ok [])
  | nn :: rest =>
      let G := Graph_init nn in
      let r := GraphLibrary.encounter self G 1 in
      match res r with
      | Raise e => Run (st r) (outp ++ out r) (Raise e)
      | Ok idx =>
          let r' := build_index (st r) (outp ++ out r) rest in
          Run (st r') (out r') (rbind (res r') (fun l => Ok (idx :: l)))
      end
  end.

(** Lines 91-95: [for i, sig in enumerate(self.sigs)]. *)
Fixpoint build_lookup (self : GraphLibrary.t) (nn_idx : list nat)
         (sigs : list string) (nn_lookup : list (string * list nat))
  : result (list (string * list nat)) :=
  match sigs with
  | [] => Ok nn_lookup
  | sig :: rest =>
      let nn_lookup :=
        if sdict_mem sig nn_lookup then nn_lookup else sdict_set sig [] nn_lookup in
      match sdict_get sig nn_lookup, GraphLibrary.index self !! sig with
      | Some cur, Some i =>
          build_lookup self nn_idx rest
                       (sdict_set sig (cur ++ argwhere_eq nn_idx i) nn_lookup)
      | _, _ => Raise KeyError
      end
  end.

(** [GraphLibrary.build(self,neighborhoods)] *)
Definition build (self : GraphLibrary.t) (neighborhoods : list (list (list Z)))
  : run GraphLibrary.t (list (string * list nat)) :=
  let r := build_index self [] neighborhoods in
  match res r with
  | Raise e => Run (st r) (out r) (Raise e)
  | Ok nn_idx =>
      Run (st r) (out r) (build_lookup (st r) nn_idx (GraphLibrary.sigs (st r)) [])
  end.

End Build.

End LibraryBuild.

Module Snapshot.

(** A float coordinate triple. *)
Definition vec3 : Type := (Q * Q * Q)%type.

(** The attributes of a Snapshot that the modelled methods touch.  [N],
    [L] and [pbc] are set by the reader and by [__init__] ([None] here is
    a missing attribute); the other four start as Python [None]. *)
Record t := mk {
  N : option nat;
  L : option vec3;
  pbc : option string;
  neighbors : option (list (list nat));
  adjacency : option (list (list (list Z)));
  library : option GraphLibrary.t;
  lookup : option (list (string * list nat))
}.

Definition set_neighbors (self : t) (v : option (list (list nat))) : t :=
  mk (N self) (L self) (pbc self) v (adjacency self) (library self) (lookup self).

Definition set_adjacency (self : t) (v : option (list (list (list Z)))) : t :=
  mk (N self) (L self) (pbc self) (neighbors self) v (library self) (lookup self).

Definition set_library (self : t) (v : option GraphLibrary.t) : t :=
  mk (N self) (L self) (pbc self) (neighbors self) (adjacency self) v (lookup self).

Definition set_lookup (self : t) (v : option (list (string * list nat))) : t :=
  mk (N self) (L self) (pbc self) (neighbors self) (adjacency self) (library self) v.

Definition set_N (self : t) (n : nat) : t :=
  mk (Some n) (L self) (pbc self) (neighbors self) (adjacency self) (library self)
     (lookup self).

Section Stages.

Variable Graph_init : list (list Z) -> Graph.
(** [self.nl.getNeighbors(self)] and [self.nl.getAdjacency(self)] *)
Variable getNeighbors : t -> result (list (list nat)).
Variable getAdjacency : t -> result (list (list (list Z))).

(** [buildNeighborhoods(self)] *)
Definition buildNeighborhoods (self : t) : run t unit :=
  match getNeighbors self with
  | Raise e => Run self [] (Raise e)
  | Ok nb => Run (set_neighbors self (Some nb)) [] (Ok tt)
  end.

(** [buildAdjacency(self)] *)
Definition buildAdjacency (self : t) : run t unit :=
  match getAdjacency self with
  | Raise e => Run self [] (Raise e)
  | Ok a => Run (set_adjacency self (Some a)) [] (Ok tt)
  end.

(** Lines 205-208 of [buildLibrary]: the earlier stages, when needed. *)
Definition ensure_adjacency (self : t) : run t unit :=
  match adjacency self with
  | Some _ => Run self [] (Ok tt)
  | None =>
      let r := match neighbors self with
               | Some _ => Run self [] (Ok tt)
               | None => buildNeighborhoods self
               end in
      match res r with
      | Raise e => r
      | Ok _ => buildAdjacency (st r)
      end
  end.

(** [buildLibrary(self)]: [self.library] is the object that
    [GraphLibrary.build] fills, so it holds what was registered also when
    [build] raises. *)
Definition buildLibrary (self : t) : run t unit :=
  let self := set_library self (Some GraphLibrary.init) in
  let r := ensure_adjacency self in
  match res r with
  | Raise e => r
  | Ok _ =>
      match adjacency (st r) with
      | None => Run (st r) [] (Raise TypeError)
      | Some a =>
          let b := LibraryBuild.build Graph_init GraphLibrary.init a in
          let self' := set_library (st r) (Some (st b)) in
          match res b with
          | Raise e => Run self' (out b) (Raise e)
          | Ok lk => Run (set_lookup self' (Some lk)) (out b) (Ok tt)
          end
      end
  end.

End Stages.

(** [m[idx] = v] for an index array [idx]. *)
Fixpoint assign_all (m : list (option nat)) (idx : list nat) (v : nat)
  : result (list (option nat)) :=
  match idx with
  | [] => Ok m
  | p :: rest =>
      if decide (p < length m) then assign_all (<[p := Some v]> m) rest v
      else Raise IndexError
  end.

(** Lines 214-216 of [mapTo]: [for sig, idx in self.lookup.items()]. *)
Fixpoint map_items (library : GraphLibrary.t) (m : list (option nat))
         (items : list (string * list nat)) : result (list (option nat)) :=
  match items with
  | [] => Ok m
  | (sig, idx) :: rest =>
      match GraphLibrary.index library !! sig with
      | None => map_items library m rest
      | Some i => rbind (assign_all m idx i) (fun m' => map_items library m' rest)
      end
  end.

(** [mapTo(self,library)]; an entry of the result is [None] for NaN. *)
Definition mapTo (self : t) (library : pyobj GraphLibrary.t) : result (list (option nat)) :=
  match library with
  | Foreign => Raise ValueError
  | Inst lib =>
      match N self with
      | None => Raise AttributeError
      | Some n =>
          match lookup self with
          | None => Raise AttributeError
          | Some lk => map_items lib (replicate n None) lk
          end
      end
  end.

(** [np.round] of a rational: to the nearest integer, a tie to the even
    one. *)
Definition np_round (q : Q) : Z :=
  let f := Qfloor q in
  match (q - inject_Z f ?= 1 # 2)%Q with
  | Lt => f
  | Gt => (f + 1)%Z
  | Eq => if Z.even f then f else (f + 1)%Z
  end.


(** One axis of line 220. *)
Definition wrap_axis (v l : Q) (periodic : bool) : Q :=
  let flag : Q := if periodic then 1%Q else 0%Q in
  (v - l * inject_Z (np_round (v / l * flag)))%Q.


(** What [pickle] writes to the file: a dict in which each of the four
    keys may be missing; a key that is there holds the attribute, which
    may be [None]. *)
Record buff := mkBuff {
  b_neighbors : option (option (list (list nat)));
  b_adjacency : option (option (list (list (list Z))));
  b_library : option (option GraphLibrary.t);
  b_lookup : option (option (list (string * list nat)))
}.

(** [save(self,filename,neighbors=False,adjacency=False,library=False)]:
    the dict that is pickled into the file. *)
Definition save (self : t) (want_neighbors want_adjacency want_library : bool) : buff :=
  mkBuff (if want_neighbors then Some (neighbors self) else None)
         (if want_adjacency then Some (adjacency self) else None)
         (if want_library then Some (library self) else None)
         (if want_library then Some (lookup self) else None).

(** Lines 236-238 and 239-241 of [load], one key each; [len(None)] is a
    TypeError. *)
Definition load_neighbors (self : t) (b : buff) : t * result unit :=
  match b_neighbors b with
  | None => (self, Ok tt)
  | Some v =>
      let self := set_neighbors self v in
      match v with
      | None => (self, Raise TypeError)
      | Some nb => (set_N self (length nb), Ok tt)
      end
  end.

Definition load_adjacency (self : t) (b : buff) : t * result unit :=
  match b_adjacency b with
  | None => (self, Ok tt)
  | Some v =>
      let self := set_adjacency self v in
      match v with
      | None => (self, Raise TypeError)
      | Some a => (set_N self (length a), Ok tt)
      end
  end.

(** Lines 242-244. *)
Definition load_library (self : t) (b : buff) : t * result unit :=
  match b_library b with
  | None => (self, Ok tt)
  | Some v =>
      let self := set_library self v in
      match b_lookup b with
      | None => (self, Raise KeyError)
      | Some lk => (set_lookup self lk, Ok tt)
      end
  end.

(** [load(self,filename)], given the dict unpickled from the file. *)
Definition load (self : t) (b : buff) : t * result unit :=
  let '(self, r) := load_neighbors self b in
  match r with
  | Raise e => (self, Raise e)
  | Ok _ =>
      let '(self, r) := load_adjacency self b in
      match r with
      | Raise e => (self, Raise e)
      | Ok _ => load_library self b
      end
  end.

End Snapshot.

(* ================================================================== *)
(** * Predicates used in the statements                                *)
(* ================================================================== *)

(** The shape every library built by [__init__], [encounter] and
    [collect] has: the three sequences run in parallel and the index
    points into them. *)
Record library_wf (lib : GraphLibrary.t) : Prop := {
  wf_sigs : length (GraphLibrary.sigs lib) = length (GraphLibrary.graphs lib);
  wf_counts : length (GraphLibrary.counts lib) = length (GraphLibrary.graphs lib);
  wf_index : forall s i, GraphLibrary.index lib !! s = Some i ->
                         i < length (GraphLibrary.graphs lib)
}.



(** [d[i,j]], when inside the matrix. *)
Definition cell_at (d : list (list cell)) (i j : nat) : option cell :=
  match d !! i with
  | Some row => row !! j
  | None => None
  end.


(** The kernel as the specification words it, with the squared
    bandwidth: [exp(-d^2 / (2 epsilon^2))]. *)
Definition spec_gaussian_kernel (dists : DMap.matrix) (epsilon : R) : DMap.matrix :=
  map (map (fun d => exp (- d ^ 2 / (2 * epsilon ^ 2)))) dists.



(** The task at position [K] of the task list belongs to row [K / m] and
    names the landmark at column [K mod m]. *)
Definition task_ok (m : nat) (lm : option (list nat)) (K : nat) (t : nat * nat) : Prop :=
  exists j, K = t.1 * m + j /\ j < m /\ Ensemble.lm_at lm j = Ok t.2.




(** Signatures, index and graphs agree: the index sends a signature to
    its position in [sigs], and the graph at a position has the signature
    stored there. *)
Record library_consistent (lib : GraphLibrary.t) : Prop := {
  lc_index_sigs : forall s i,
      GraphLibrary.index lib !! s = Some i <-> GraphLibrary.sigs lib !! i = Some s;
  lc_graph_sig : forall i g,
      GraphLibrary.graphs lib !! i = Some g -> GraphLibrary.sigs lib !! i = Some (str g)
}.


(** [b] holds everything [a] held, at the same places. *)
Record library_extends (a b : GraphLibrary.t) : Prop := {
  ext_graphs : GraphLibrary.graphs a `prefix_of` GraphLibrary.graphs b;
  ext_sigs : GraphLibrary.sigs a `prefix_of` GraphLibrary.sigs b;
  ext_index : forall s i, GraphLibrary.index a !! s = Some i ->
                          GraphLibrary.index b !! s = Some i
}.

(** The sum of a list of integers. *)
Definition zsum (l : list Z) : Z := foldr Z.add 0%Z l.

(** A matrix of [n] rows of [m] cells. *)
Definition cells_shape (n m : nat) (d : list (list cell)) : Prop :=
  length d = n /\ Forall (fun row => length row = m) d.

(** The tasks from position [k0] on name row and landmark of the cells
    [k0], [k0 + 1], ... of an [n] by [m] matrix. *)
Definition tasks_from (n m : nat) (l : list nat) (k0 : nat) (tasks : list (nat * nat)) : Prop :=
  forall k t, tasks !! k = Some t ->
              exists j, k0 + k = t.1 * m + j /\ j < m /\ t.1 < n /\ l !! j = Some t.2.



(** [s] lists the distinct values of [vals] in increasing order. *)
Definition distinct_sorted (vals s : list Q) : Prop :=
  StronglySorted Qlt s /\
  forall y, Exists (fun z => (z == y)%Q) s <-> Exists (fun z => (z == y)%Q) vals.

(** [q] is the value at position [k] of [s]. *)
Definition rank_of (s : list Q) (q : Q) (k : nat) : Prop :=
  exists sk, s !! k = Some sk /\ (sk == q)%Q.

(** The coordinate of rank [k] among [n] distinct values. *)
Definition rank_coord (k n : nat) : Q :=
  (inject_Z (Z.of_nat k) / inject_Z (Z.of_nat (n - 1)))%Q.

(** ** Sample inputs *)

(** Two nodes joined by one edge. *)
Definition two_nodes : Graph :=
  mkGraph [[0; 1]; [1; 0]]%Z [2; 0]%Z [[1; 0]; [1; 0]]%Z.

(** The same adjacency and degree distribution, hence the same
    signature, with other node-wise graphlet counts. *)
Definition two_nodes_twin : Graph :=
  mkGraph [[0; 1]; [1; 0]]%Z [2; 0]%Z [[1; 1]; [1; 0]]%Z.

(** A library that has seen [two_nodes] once. *)
Definition one_graph_library : GraphLibrary.t :=
  st (GraphLibrary.encounter GraphLibrary.init two_nodes 1).

(** Two workers that both hold frame 0. *)
Definition worker_a : Ensemble.t :=
  Ensemble.mk one_graph_library [(0, [(str two_nodes, [0; 1])])]
              None None None None None false.

Definition worker_b : Ensemble.t :=
  Ensemble.mk one_graph_library [(0, [(str two_nodes, [2; 3])]); (1, [])]
              None None None None None false.

(** One node without neighbours. *)
Definition lonely : Graph :=
  mkGraph [[0]]%Z [0; 0]%Z [[0; 0]]%Z.

(** A coordinator whose library holds [two_nodes] and [lonely], pruned
    to the single landmark [two_nodes]. *)
Definition coordinator : Ensemble.t :=
  Ensemble.mk (st (GraphLibrary.encounter one_graph_library lonely 1)) []
              (Some [0]) (Some [str two_nodes]) None None None true.

(** Equality of floats up to the representation of the fraction. *)
Definition fl_equiv (x y : Color.fl) : Prop :=
  match x, y with
  | Color.NaN, Color.NaN => True
  | Color.Num p, Color.Num q => (p == q)%Q
  | _, _ => False
  end.

(** Two points at distance one. *)
Definition two_points : DMap.matrix := [[0; 1]; [1; 0]]%R.

(** What [np.linalg.eig] returns on a matrix [[a, b], [b, a]]: the
    eigenvalues [a + b] and [a - b] with the unit eigenvectors along
    (1, 1) and (1, -1). *)
Definition eig_sym2 (p : DMap.matrix) : result (list (R * R) * list (list (R * R))) :=
  match p with
  | [[a; b]; [_; _]] =>
      let h := (/ sqrt 2)%R in
      Ok ([((a + b)%R, 0%R); ((a - b)%R, 0%R)],
          [[(h, 0%R); (h, 0%R)]; [(h, 0%R); ((- h)%R, 0%R)]])
  | _ => Raise LinAlgError
  end.



(** A stand-in for [_crayon.graph]: the degree sequence in place of the
    graphlet counts. *)
Definition degree_graph (a : list (list Z)) : Graph :=
  mkGraph a (map zsum a) (map (fun row => [zsum row]) a).

(** Three particles: two in a pair, one alone, one in a pair. *)
Definition three_neighborhoods : list (list (list Z)) :=
  [[[0; 1]; [1; 0]]; [[0]]; [[0; 1]; [1; 0]]]%Z.

(** A snapshot of three particles in a unit box, periodic along x and
    y, with its adjacency built. *)
Definition three_particles : Snapshot.t :=
  Snapshot.mk (Some 3) (Some (1, 1, 1)%Q) (Some "xy") None (Some three_neighborhoods) None None.

(** A neighbour list that is never consulted. *)
Definition no_neighbors (s : Snapshot.t) : result (list (list nat)) := Raise RuntimeError.
Definition no_adjacency (s : Snapshot.t) : result (list (list (list Z))) := Raise RuntimeError.

(** Three rows and two columns; the second row has NaN in the last
    column. *)
Definition ranked_sample : Color.ndarray :=
  Color.mkArray 3 [[Color.Num 5; Color.Num 2; Color.Num 5];
                   [Color.Num 1; Color.NaN; Color.Num 3]]%Q.

Definition ranked_result : Color.ndarray :=
  Eval vm_compute in
    match Color.rankOrderTransform ranked_sample with
    | Ok C => C
    | Raise _ => ranked_sample
    end.

(* ================================================================== *)
(** * Graph distance                                                   *)
(* ================================================================== *)

Lemma sumsq_nonneg (v : list Q) : (0 <= sumsq v)%Q.
Proof.
  induction v as [|x v IH]; simpl.
  - apply Qle_refl.
  - assert (0 <= x * x)%Q by (unfold Qle; destruct x as [n d]; simpl; nia).
    apply (Qle_trans _ (0 + 0)%Q); [apply Qle_refl | apply Qplus_le_compat; assumption].
Qed.

Lemma sumsq_self (v : list Q) : (sumsq (zip_with Qminus v v) == 0)%Q.
Proof.
  induction v as [|x v IH]; simpl.
  - reflexivity.
  - rewrite IH. ring.
Qed.

Lemma graph_sub_self (g : Graph) :
  exists d, graph_sub g g = Ok d /\ (d == 0)%Q.
Proof.
  unfold graph_sub, np_sub.
  destruct (decide (length (ngdv g) = length (ngdv g))) as [_|n]; [|congruence].
  simpl. eexists; split; [reflexivity | apply sumsq_self].
Qed.

(** A graph never differs from itself. *)
Lemma graph_ne_refl (g : Graph) : graph_ne g g = Ok false.
Proof.
  unfold graph_ne.
  destruct (graph_sub_self g) as (d & -> & Hd). simpl.
  symmetry in Hd. apply Qeq_alt in Hd. rewrite Hd. reflexivity.
Qed.


(* ================================================================== *)
(** * GraphLibrary.encounter                                           *)
(* ================================================================== *)

Section EncounterFacts.
Import GraphLibrary.

Lemma wf_init : library_wf init.
Proof. split; [reflexivity | reflexivity | intros s i H; simpl in H; rewrite lookup_empty in H; discriminate]. Qed.

(** The library after [encounter] is the registered one, whatever the
    integrity check then says. *)
Lemma encounter_state (lib : t) (g : Graph) (c : Z) :
  st (encounter lib g c) = (register lib (str g) g c).1.
Proof.
  unfold encounter. destruct (register lib (str g) g c) as [lib' idx]. simpl.
  destruct (graphs lib' !! idx) as [stored|]; [|reflexivity].
  destruct (graph_ne stored g) as [[|]|]; reflexivity.
Qed.

Lemma wf_append (lib : t) (sig : string) (g : Graph) (c : Z) :
  library_wf lib -> library_wf (append lib sig g c).1.
Proof.
  intros [Hs Hc Hi]. split; simpl.
  - rewrite !length_app. simpl. lia.
  - rewrite !length_app. simpl. lia.
  - intros s i. rewrite length_app. simpl. rewrite lookup_insert.
    case_decide; [intros [= <-]; lia | intros Hl; apply Hi in Hl; lia].
Qed.

Lemma wf_register (lib : t) (sig : string) (g : Graph) (c : Z) :
  library_wf lib -> library_wf (register lib sig g c).1.
Proof.
  intros Hwf. unfold register.
  destruct (index lib !! sig) as [i|]; [|apply wf_append, Hwf].
  destruct (counts lib !! i) as [old|]; [|apply wf_append, Hwf].
  destruct Hwf as [Hs Hc Hi]. split; simpl; [assumption | rewrite length_insert; assumption | assumption].
Qed.

(** [encounter] keeps the library well formed, also when it raises. *)
Lemma wf_encounter (lib : t) (g : Graph) (c : Z) :
  library_wf lib -> library_wf (st (encounter lib g c)).
Proof. intros Hwf. rewrite encounter_state. apply wf_register, Hwf. Qed.


(** [encounter] on a signature that is absent. *)
Lemma encounter_absent (lib : t) (g : Graph) (c : Z) :
  index lib !! str g = None ->
  encounter lib g c = Run (append lib (str g) g c).1 [] (Ok (length (graphs lib))).
Proof.
  intros Hi. unfold encounter, register. rewrite Hi. simpl.
  rewrite lookup_app_r by lia. rewrite Nat.sub_diag. simpl.
  rewrite graph_ne_refl. reflexivity.
Qed.

End EncounterFacts.

Section EncounterClaims.
Import GraphLibrary.





(** C10. [encounter] registers before it checks: the library it leaves is
    always the one after the count update or the append, and when the
    integrity error is raised the signature was present and its count has
    already been increased by [c]. *)
Theorem encounter_not_atomic (lib : t) (g : Graph) (c : Z) :
  res (encounter lib g c) = Raise RuntimeError ->
  st (encounter lib g c) = (register lib (str g) g c).1 /\
  exists i old,
    index lib !! str g = Some i /\
    counts lib !! i = Some old /\
    st (encounter lib g c)
      = mk (sigs lib) (graphs lib) (<[i := (old + c)%Z]> (counts lib)) (index lib) /\
    counts (st (encounter lib g c)) !! i = Some (old + c)%Z.
Proof.
  intros Hres. split; [apply encounter_state|].
  destruct (index lib !! str g) as [i|] eqn:Hi.
  - destruct (counts lib !! i) as [old|] eqn:Hold.
    + exists i, old. rewrite encounter_state. unfold register. rewrite Hi, Hold. simpl.
      repeat split. apply list_lookup_insert_eq. eapply lookup_lt_Some; eauto.
    + exfalso. revert Hres. unfold encounter, register. rewrite Hi, Hold. simpl.
      rewrite lookup_app_r by lia. rewrite Nat.sub_diag. simpl.
      rewrite graph_ne_refl. discriminate.
  - exfalso. rewrite (encounter_absent lib g c Hi) in Hres. discriminate.
Qed.

Lemma encounter_not_atomic_witness :
  st (encounter one_graph_library two_nodes_twin 5)
    = (register one_graph_library (str two_nodes_twin) two_nodes_twin 5).1 /\
  exists i old,
    index one_graph_library !! str two_nodes_twin = Some i /\
    counts one_graph_library !! i = Some old /\
    st (encounter one_graph_library two_nodes_twin 5)
      = mk (sigs one_graph_library) (graphs one_graph_library)
           (<[i := (old + 5)%Z]> (counts one_graph_library)) (index one_graph_library) /\
    counts (st (encounter one_graph_library two_nodes_twin 5)) !! i = Some (old + 5)%Z.
Proof.
  apply (encounter_not_atomic one_graph_library two_nodes_twin 5).
  vm_compute. reflexivity.
Defined.

End EncounterClaims.

(* ================================================================== *)
(** * GraphLibrary.collect                                             *)
(* ================================================================== *)

Section CollectFacts.
Import GraphLibrary.

Lemma wf_collect_graphs (other : t) (b : bool) (gs : list Graph) :
  forall (self : t) (outp : list event) (idx : nat),
    library_wf self -> library_wf (st (collect_graphs self outp other b gs idx)).
Proof.
  induction gs as [|G gs IH]; intros self outp idx Hwf; simpl; [assumption|].
  destruct (if b then counts other !! idx else Some 0%Z) as [c|]; [|assumption].
  pose proof (wf_encounter self G c Hwf) as Hwf'.
  destruct (res (encounter self G c)); [apply IH, Hwf' | exact Hwf'].
Qed.

Lemma wf_collect_loop (b : bool) (others : list (pyobj t)) :
  forall (self : t) (outp : list event),
    library_wf self -> library_wf (st (collect_loop self outp others b)).
Proof.
  induction others as [|[other|] rest IH]; intros self outp Hwf; simpl; try assumption.
  pose proof (wf_collect_graphs other b (graphs other) self outp 0 Hwf) as Hwf'.
  destruct (res (collect_graphs self outp other b (graphs other) 0)); [apply IH, Hwf' | exact Hwf'].
Qed.

(** [collect] keeps the library well formed, also when it raises. *)
Lemma wf_collect (self : t) (others : pyarg t) (b : bool) :
  library_wf self -> library_wf (st (collect self others b)).
Proof.
  intros Hwf. unfold collect.
  destruct (as_list others) as [|[o|] rest] eqn:E; try assumption.
  apply wf_collect_loop, Hwf.
Qed.

(** C8. The type test of [collect] looks at the first element only.  A
    lone non-library object, or a list that starts with one, is refused
    with TypeError and the library is untouched.  A list whose first
    element is a library and whose second is not is merged up to the
    foreign element and then fails with AttributeError: here the empty
    library has already taken over the graph of [one_graph_library]. *)
Theorem collect_checks_first_only :
  (forall self b, collect self (One Foreign) b = Run self [] (Raise TypeError)) /\
  (forall self rest b, collect self (Many (Foreign :: rest)) b = Run self [] (Raise TypeError)) /\
  res (collect init (Many [Inst one_graph_library; Foreign]) true) = Raise AttributeError /\
  st (collect init (Many [Inst one_graph_library; Foreign]) true) = one_graph_library /\
  graphs one_graph_library = [two_nodes] /\
  graphs init = [].
Proof.
  split; [reflexivity|]. split; [reflexivity|].
  split; [vm_compute; reflexivity|].
  split; [vm_compute; reflexivity|].
  split; reflexivity.
Qed.

End CollectFacts.

(* ================================================================== *)
(** * Ensemble.collect                                                 *)
(* ================================================================== *)

Section DictFacts.
Context {V : Type}.
Implicit Types (d : list (nat * V)) (k : nat) (v : V).

Lemma dict_get_set_eq d k v : dict_get k (dict_set k v d) = Some v.
Proof.
  induction d as [|[k' v'] d IH]; simpl.
  - rewrite decide_True by reflexivity. reflexivity.
  - destruct (decide (k = k')) as [->|Hne]; simpl.
    + rewrite decide_True by reflexivity. reflexivity.
    + rewrite decide_False by assumption. exact IH.
Qed.

Lemma dict_get_set_ne d k k' v : k <> k' -> dict_get k' (dict_set k v d) = dict_get k' d.
Proof.
  intros Hne. induction d as [|[k0 v0] d IH]; simpl.
  - rewrite decide_False by congruence. reflexivity.
  - destruct (decide (k = k0)) as [->|Hne0]; simpl.
    + rewrite !decide_False by congruence. reflexivity.
    + destruct (decide (k' = k0)); [reflexivity | exact IH].
Qed.

Lemma dict_mem_set d k k' v :
  dict_mem k' (dict_set k v d) = true <-> k' = k \/ dict_mem k' d = true.
Proof.
  unfold dict_mem. destruct (decide (k = k')) as [->|Hne].
  - rewrite dict_get_set_eq. tauto.
  - rewrite dict_get_set_ne by assumption. intuition congruence.
Qed.

End DictFacts.

Section EnsembleCollectFacts.
Import Ensemble.


Lemma collect_loop_step (self : t) (outp : list event) (other : t) (rest : list (pyobj t)) :
  let r0 := GraphLibrary.collect (library self) (One (Inst (library other))) true in
  let self1 := set_library self (st r0) in
  let m := merge_lookups (lookups self) (outp ++ out r0) (lookups other) in
  collect_loop self outp (Inst other :: rest) =
    match res r0 with
    | Raise e => Run self1 (outp ++ out r0) (Raise e)
    | Ok _ => collect_loop (set_lookups self1 m.1) m.2 rest
    end.
Proof.
  cbv zeta. cbn [collect_loop].
  destruct (res (GraphLibrary.collect (library self) (One (Inst (library other))) true));
    [|reflexivity].
  cbn [lookups set_library].
  destruct (merge_lookups _ _ _). reflexivity.
Qed.







(** What the run on [worker_a] and [worker_b] looks like: the warning,
    then the closing line; frame 0 ends up with the entry of [worker_b]. *)
Example duplicate_key_run :
  let r := collect (init true) (Many [Inst worker_a; Inst worker_b]) in
  out r = [PrintLine dup_warning; PrintLine "collection complete, found 1 unique graphs"] /\
  res r = Ok tt /\
  lookups (st r) = [(0, [(str two_nodes, [2; 3])]); (1, [])].
Proof. vm_compute. repeat split. Qed.

End EnsembleCollectFacts.

(* ================================================================== *)
(** * Ensemble.computeDists                                            *)
(* ================================================================== *)

Section ComputeDistsFacts.
Import Ensemble.

Lemma argwhere_from_first {A} (P : A -> bool) (a : list A) :
  forall (i j jid : nat) (rest : list nat) (y : A),
    argwhere_from P i a = jid :: rest ->
    a !! j = Some y -> P y = true ->
    jid <= i + j.
Proof.
  induction a as [|x a IH]; intros i j jid rest y Harg Hj Hy; [discriminate|].
  simpl in Harg. destruct j as [|j]; simpl in Hj.
  - injection Hj as ->. rewrite Hy in Harg. injection Harg as <- _. lia.
  - destruct (P x).
    + injection Harg as <- _. lia.
    + pose proof (IH (S i) j jid rest y Harg Hj Hy). lia.
Qed.

Lemma cell_at_inf (n m i j : nat) :
  i < n -> j < m -> cell_at (inf_matrix n m) i j = Some Inf.
Proof.
  intros Hi Hj. unfold cell_at, inf_matrix.
  rewrite lookup_replicate_2 by assumption. apply lookup_replicate_2. assumption.
Qed.

Lemma cell_at_set_other (d d' : list (list cell)) (i jid i' j' : nat) (x : cell) :
  set_cell d i jid x = Ok d' ->
  (i', j') <> (i, jid) ->
  cell_at d' i' j' = cell_at d i' j'.
Proof.
  unfold set_cell, cell_at. intros Hset Hne.
  destruct (d !! i) as [row|] eqn:Hrow; [|discriminate].
  destruct (decide (jid < length row)); [|discriminate].
  injection Hset as <-.
  destruct (decide (i' = i)) as [->|Hi].
  - rewrite list_lookup_insert_eq by (eapply lookup_lt_Some; eauto).
    rewrite Hrow. apply list_lookup_insert_ne. congruence.
  - rewrite list_lookup_insert_ne by congruence. reflexivity.
Qed.

Lemma row_tasks_spec (lm : option (list nat)) (i : nat) (cnt : nat) :
  forall (j0 : nat) (row : list (nat * nat)),
    mapM (fun j => rbind (lm_at lm j) (fun x => Ok (i, x))) (seq j0 cnt) = Ok row ->
    length row = cnt /\
    forall k t, row !! k = Some t -> t.1 = i /\ lm_at lm (j0 + k) = Ok t.2.
Proof.
  induction cnt as [|cnt IH]; intros j0 row; simpl.
  - intros [= <-]. split; [reflexivity|]. intros k t H. inversion H.
  - destruct (lm_at lm j0) as [x|] eqn:Hx; simpl; [|discriminate].
    destruct (mapM _ (seq (S j0) cnt)) as [row'|] eqn:Hrow; simpl; [|discriminate].
    intros [= <-]. destruct (IH (S j0) row' Hrow) as [Hlen Hall].
    split; [simpl; lia|].
    intros [|k] t; simpl.
    + intros [= <-]. simpl. rewrite Nat.add_0_r. auto.
    + intros H. destruct (Hall k t H) as [H1 H2]. split; [assumption|].
      replace (j0 + S k) with (S j0 + k) by lia. assumption.
Qed.

Lemma rows_tasks_spec (lm : option (list nat)) (m : nat) (cnt : nat) :
  forall (i0 : nat) (rows : list (list (nat * nat))),
    mapM (fun i => mapM (fun j => rbind (lm_at lm j) (fun x => Ok (i, x))) (seq 0 m))
         (seq i0 cnt) = Ok rows ->
    forall k t, concat rows !! k = Some t -> task_ok m lm (i0 * m + k) t.
Proof.
  induction cnt as [|cnt IH]; intros i0 rows; simpl.
  - intros [= <-] k t H. inversion H.
  - destruct (mapM _ (seq 0 m)) as [row|] eqn:Hrow; simpl; [|discriminate].
    destruct (mapM _ (seq (S i0) cnt)) as [rows'|] eqn:Hrows; simpl; [|discriminate].
    intros [= <-] k t. simpl.
    destruct (row_tasks_spec lm i0 m 0 row Hrow) as [Hlen Hall].
    destruct (decide (k < length row)) as [Hk|Hk].
    + rewrite lookup_app_l by assumption. intros H.
      destruct (Hall k t H) as [H1 H2]. exists k. simpl in H2.
      split; [rewrite H1; reflexivity|]. split; [lia | assumption].
    + rewrite lookup_app_r by lia. intros H.
      destruct (IH (S i0) rows' Hrows _ t H) as (j & HK & Hj & Hlm).
      exists j. split; [lia|]. split; assumption.
Qed.

Lemma task_list_spec (n m : nat) (lm : option (list nat)) (tasks : list (nat * nat)) :
  task_list n m lm = Ok tasks ->
  forall k t, tasks !! k = Some t -> task_ok m lm k t.
Proof.
  unfold task_list. destruct (mapM _ (seq 0 n)) as [rows|] eqn:Hrows; simpl; [|discriminate].
  intros [= <-] k t H. apply (rows_tasks_spec lm m n 0 rows Hrows k t H).
Qed.

(** Assembly writes only cells whose task result was returned. *)
Lemma assemble_untouched (m : nat) (lm : option (list nat)) (results : list Q) :
  forall (tasks : list (nat * nat)) (d : list (list cell)) (k0 : nat),
    (forall k t, tasks !! k = Some t -> task_ok m lm (k0 + k) t) ->
    forall i j, j < m -> k0 + length results <= i * m + j ->
      cell_at (assemble d lm tasks results).1 i j = cell_at d i j.
Proof.
  induction results as [|r results IH]; intros tasks d k0 Htasks i j Hj Hk; simpl; [reflexivity|].
  destruct tasks as [|[i0 x] tasks]; [reflexivity|].
  destruct lm as [l|]; [|reflexivity].
  destruct (argwhere_eq l x) as [|jid rest] eqn:Harg; [reflexivity|].
  destruct (set_cell d i0 jid (Dist r)) as [d'|e] eqn:Hset; [|reflexivity].
  destruct (Htasks 0 (i0, x) eq_refl) as (j0 & HK & Hj0 & Hlm). simpl in HK, Hlm.
  assert (Hjid : jid <= j0).
  { unfold lm_at in Hlm. destruct (l !! j0) as [y|] eqn:Hy; [|discriminate].
    injection Hlm as ->.
    apply (argwhere_from_first _ l 0 j0 jid rest x Harg Hy). apply bool_decide_eq_true. reflexivity. }
  rewrite (IH tasks d' (S k0)).
  - apply (cell_at_set_other d d' i0 jid i j (Dist r) Hset).
    intros [= -> ->]. simpl in Hk. lia.
  - intros k t H. replace (S k0 + k) with (k0 + S k) by lia. apply Htasks. exact H.
  - assumption.
  - simpl in Hk. lia.
Qed.

Lemma detect_dists (best_cluster : list (list cell) -> nat -> result (list nat)) (self : t) :
  dists (st (detect best_cluster self)) = dists self.
Proof.
  unfold detect. destruct (dists self) as [d|] eqn:Hd; [|simpl; congruence].
  destruct (best_cluster d 0); [|simpl; congruence].
  destruct (lm_idx self); [|simpl; congruence].
  destruct (take_idx _ _); [|simpl; congruence].
  destruct (best_cluster d 1); simpl; congruence.
Qed.

(** C9. On the coordinator, after [computeDists] (whether or not the
    outlier detection runs, and also when it raises) the matrix has +inf
    in every cell whose task has no entry in the result list; with an
    empty result list that is every cell.  +inf is not a distance, so it
    is told apart from a computed zero. *)
Theorem uncomputed_cells_stay_inf
        (best_cluster : list (list cell) -> nat -> result (list nat))
        (self : t) (result_list : list Q) (detect_outliers : bool) (sg : list string) :
  master self = true ->
  lm_sigs self = Some sg ->
  exists d,
    dists (st (computeDists best_cluster self result_list detect_outliers)) = Some d /\
    (forall i j,
        i < length (GraphLibrary.sigs (library self)) -> j < length sg ->
        length result_list <= i * length sg + j ->
        cell_at d i j = Some Inf) /\
    Inf <> Dist 0.
Proof.
  intros Hm Hsg. unfold computeDists. rewrite Hm, Hsg. cbn [negb].
  set (n := length (GraphLibrary.sigs (library self))). set (m := length sg).
  cbn [lm_idx set_dists].
  destruct (task_list n m (lm_idx self)) as [tasks|e] eqn:Htasks.
  - pose proof (assemble_untouched m (lm_idx self) result_list tasks (inf_matrix n m) 0
                  (task_list_spec n m _ tasks Htasks)) as Hun.
    destruct (assemble (inf_matrix n m) (lm_idx self) tasks result_list) as [d r] eqn:Has.
    simpl in Hun. exists d. split; [|split; [|discriminate]].
    + destruct r; [destruct detect_outliers|]; try reflexivity.
      rewrite detect_dists. reflexivity.
    + intros i j Hi Hj Hk. rewrite Hun by assumption. apply cell_at_inf; assumption.
  - exists (inf_matrix n m). split; [reflexivity|]. split; [|discriminate].
    intros i j Hi Hj _. apply cell_at_inf; assumption.
Qed.

Lemma uncomputed_cells_stay_inf_witness :
  exists d,
    dists (st (computeDists (fun _ _ => Ok []) coordinator [0%Q] false)) = Some d /\
    (forall i j,
        i < length (GraphLibrary.sigs (library coordinator)) -> j < length [str two_nodes] ->
        length [0%Q] <= i * length [str two_nodes] + j ->
        cell_at d i j = Some Inf) /\
    Inf <> Dist 0.
Proof.
  apply (uncomputed_cells_stay_inf (fun _ _ => Ok []) coordinator [0%Q] false [str two_nodes]);
    reflexivity.
Defined.

End ComputeDistsFacts.

(* ================================================================== *)
(** * color.rankOrderTransform                                         *)
(* ================================================================== *)

Section RankTransformFacts.
Import Color.

Lemma non_nan_all_nan (c : list fl) :
  Forall (fun x => isnan x = true) c -> non_nan c = [].
Proof.
  induction 1 as [|x c Hx _ IH]; [reflexivity|].
  destruct x; [exact IH | discriminate].
Qed.

Lemma transform_column_error (c : list fl) (e : exn) :
  transform_column c = Raise e -> e = ValueError.
Proof.
  unfold transform_column, np_interp.
  destruct (np_unique (non_nan c)); [congruence|].
  case_decide; [discriminate | congruence].
Qed.

Lemma mapM_raise {A B} (f : A -> result B) (err : exn) (l : list A) :
  (forall a e, f a = Raise e -> e = err) ->
  (exists a, a ∈ l /\ f a = Raise err) ->
  mapM f l = Raise err.
Proof.
  intros Honly. induction l as [|a l IH]; intros (b & Hin & Hb).
  - inversion Hin.
  - simpl. destruct (f a) as [y|e] eqn:Hfa; simpl.
    + rewrite IH; [reflexivity|]. exists b. split; [|assumption].
      apply elem_of_cons in Hin. destruct Hin as [->|Hin]; [congruence | assumption].
    + f_equal. eapply Honly; eauto.
Qed.

(** An array with a column that holds nothing but NaN makes
    [rankOrderTransform] raise: [np.interp] refuses the empty array of
    sample points, and the sentinel lines are not reached. *)
Lemma all_nan_column_raises (R : ndarray) (c : list fl) :
  c ∈ cols R ->
  Forall (fun x => isnan x = true) c ->
  rankOrderTransform R = Raise ValueError.
Proof.
  intros Hin Hnan. unfold rankOrderTransform.
  rewrite (mapM_raise transform_column ValueError); [reflexivity | apply transform_column_error |].
  exists c. split; [assumption|].
  unfold transform_column. rewrite (non_nan_all_nan c Hnan). reflexivity.
Qed.

(** C6. The column [0, 1, 2, 3] is mapped to [0, 1/3, 2/3, 1]; on a
    column that is NaN throughout the transform raises ValueError instead
    of returning rows of 1.0. *)
Theorem rank_transform_examples :
  (exists c,
      rankOrderTransform (mkArray 4 [[Num 0; Num 1; Num 2; Num 3]]) = Ok (mkArray 4 [c]) /\
      Forall2 fl_equiv c [Num 0; Num (1 # 3); Num (2 # 3); Num 1]) /\
  rankOrderTransform (mkArray 4 [[NaN; NaN; NaN; NaN]]) = Raise ValueError.
Proof.
  split.
  - eexists. split; [vm_compute; reflexivity|].
    repeat constructor.
  - reflexivity.
Qed.

End RankTransformFacts.

(* ================================================================== *)
(** * DMap: attributes that are never assigned                         *)
(* ================================================================== *)

Section DMapStateFacts.
Import DMap.
















End DMapStateFacts.

(* ================================================================== *)
(** * DMap.compute: the Markov matrix                                   *)
(* ================================================================== *)

(** [List.map] read as stdpp's [fmap], for the lookup lemmas. *)
Ltac to_fmap :=
  repeat match goal with
         | |- context [map ?f ?l] => change (map f l) with (f <$> l)
         end.

Section MarkovFacts.
Import DMap.
Local Open Scope R_scope.

Lemma dot_zero (n : nat) (u : list R) : dot (replicate n 0) u = 0.
Proof.
  revert u. induction n as [|n IH]; intros [|y u]; try reflexivity.
  unfold dot in *. simpl. rewrite IH. lra.
Qed.

(** The product of a row of [np.diag(v)] with a column picks one entry. *)
Lemma dot_unit (n : nat) :
  forall (i : nat) (x : R) (u : list R),
    (i < n)%nat -> length u = n ->
    dot (<[i := x]> (replicate n 0)) u = x * nth i u 0.
Proof.
  induction n as [|n IH]; intros i x u Hi Hu; [lia|].
  destruct u as [|y u]; [discriminate|]. injection Hu as Hu.
  destruct i as [|i]; simpl.
  - unfold dot. simpl. fold (dot (replicate n 0) u). rewrite dot_zero. lra.
  - unfold dot. simpl. fold (dot (<[i := x]> (replicate n 0)) u).
    rewrite IH by (assumption || lia). lra.
Qed.

Lemma gaussian_kernel_row (d : matrix) (eps : R) (i : nat) (row : list R) :
  d !! i = Some row ->
  gaussian_kernel d eps !! i = Some (map (fun y => exp (- y ^ 2 / (2 * eps))) row).
Proof.
  intros Hrow. unfold gaussian_kernel. to_fmap. rewrite list_lookup_fmap, Hrow. simpl.
  f_equal. apply list_fmap_ext. intros _ y _. f_equal. unfold Rdiv. ring.
Qed.

(** Row [i] of [np.matmul(np.diag(1./rsum), kernel)] is row [i] of the
    kernel divided by its sum. *)
Lemma row_normalize_cell (K : matrix) (m i j : nat) (krow : list R) (y : R) :
  Forall (fun r => length r = m) K ->
  K !! i = Some krow ->
  krow !! j = Some y ->
  exists prow, row_normalize K !! i = Some prow /\
               prow !! j = Some (1 / rsum_list krow * y).
Proof.
  intros Hrect Hrow Hy. unfold row_normalize, matmul, diag, sum_axis1. to_fmap.
  rewrite list_lookup_fmap, list_lookup_imap, !list_lookup_fmap, Hrow. simpl.
  eexists. split; [reflexivity|].
  assert (Hm : ncols K = m).
  { unfold ncols. destruct K as [|r K]; [discriminate|]. simpl.
    inversion Hrect; subst. reflexivity. }
  assert (Hj : (j < m)%nat).
  { rewrite <- (proj1 (Forall_lookup _ _) Hrect i krow Hrow). eapply lookup_lt_Some; eauto. }
  rewrite list_lookup_fmap, Hm, lookup_seq_lt by assumption. simpl. f_equal.
  rewrite !length_fmap.
  rewrite dot_unit.
  - f_equal. unfold column. to_fmap. rewrite (nth_lookup _ i), list_lookup_fmap, Hrow. simpl.
    rewrite nth_lookup, Hy. reflexivity.
  - eapply lookup_lt_Some; eauto.
  - unfold column. to_fmap. rewrite length_fmap. reflexivity.
Qed.

(** The first two assignments of [compute] and the read of the
    bandwidth, up to the call of [np.linalg.eig]. *)
Lemma compute_unfold eig (self : obj) (d : matrix) (eps : R) :
  compute eig d (VNum eps) self =
    (ev ← lift (eig (row_normalize (gaussian_kernel d eps))); store_selected ev)
      (<["dists" := VMat d]> (<["epsilon" := VNum eps]> self)).
Proof.
  unfold compute, mbind, M_bind, bind, setattr, getattr, lift. simpl.
  rewrite lookup_insert_ne by discriminate. rewrite lookup_insert_eq. reflexivity.
Qed.

(** C1. For a non-zero bandwidth and a rectangular distance array,
    [compute] forms the kernel [K[i,j] = exp(-d[i,j]^2 / (2 epsilon))],
    with the bandwidth itself and not its square in the denominator,
    divides each row by its sum, and hands exactly that matrix to the
    eigen-decomposition. *)
Theorem compute_markov_matrix eig (self : obj) (d : matrix) (eps : R)
        (m i j : nat) (row : list R) (x : R) :
  eps <> 0 ->
  Forall (fun r => length r = m) d ->
  d !! i = Some row ->
  row !! j = Some x ->
  (exists krow prow,
      gaussian_kernel d eps !! i = Some krow /\
      krow = map (fun y => exp (- y ^ 2 / (2 * eps))) row /\
      krow !! j = Some (exp (- x ^ 2 / (2 * eps))) /\
      row_normalize (gaussian_kernel d eps) !! i = Some prow /\
      prow !! j = Some (1 / rsum_list krow * exp (- x ^ 2 / (2 * eps)))) /\
  compute eig d (VNum eps) self =
    (ev ← lift (eig (row_normalize (gaussian_kernel d eps))); store_selected ev)
      (<["dists" := VMat d]> (<["epsilon" := VNum eps]> self)).
Proof.
  intros _ Hrect Hrow Hx. split; [|apply compute_unfold].
  pose proof (gaussian_kernel_row d eps i row Hrow) as Hk.
  set (krow := map (fun y => exp (- y ^ 2 / (2 * eps))) row) in *.
  assert (Hkx : krow !! j = Some (exp (- x ^ 2 / (2 * eps)))).
  { subst krow. to_fmap. rewrite list_lookup_fmap, Hx. reflexivity. }
  destruct (row_normalize_cell (gaussian_kernel d eps) m i j krow
                               (exp (- x ^ 2 / (2 * eps)))) as (prow & Hp & Hpj);
    [| exact Hk | exact Hkx |].
  - unfold gaussian_kernel. to_fmap. apply Forall_fmap. eapply Forall_impl; [exact Hrect|].
    intros r Hr. simpl. rewrite length_fmap. exact Hr.
  - exists krow, prow. repeat split; assumption.
Qed.

Lemma compute_markov_matrix_witness :
  (exists krow prow,
      gaussian_kernel two_points 1 !! 0%nat = Some krow /\
      krow = map (fun y => exp (- y ^ 2 / (2 * 1))) [0; 1] /\
      krow !! 1%nat = Some (exp (- 1 ^ 2 / (2 * 1))) /\
      row_normalize (gaussian_kernel two_points 1) !! 0%nat = Some prow /\
      prow !! 1%nat = Some (1 / rsum_list krow * exp (- 1 ^ 2 / (2 * 1)))) /\
  compute eig_sym2 two_points (VNum 1) (init 4) =
    (ev ← lift (eig_sym2 (row_normalize (gaussian_kernel two_points 1))); store_selected ev)
      (<["dists" := VMat two_points]> (<["epsilon" := VNum 1]> (init 4))).
Proof.
  apply (compute_markov_matrix eig_sym2 (init 4) two_points 1 2 0 1 [0; 1] 1).
  - lra.
  - repeat constructor.
  - reflexivity.
  - reflexivity.
Defined.

(** With bandwidth 2 and a distance of 1 the code has [exp(-1/4)] where
    the squared bandwidth would give [exp(-1/8)]: the kernels differ, and
    so do the Markov matrices made from them. *)
Lemma kernel_not_squared_bandwidth :
  gaussian_kernel two_points 2 <> spec_gaussian_kernel two_points 2 /\
  row_normalize (gaussian_kernel two_points 2)
    <> row_normalize (spec_gaussian_kernel two_points 2).
Proof.
  split.
  - unfold gaussian_kernel, spec_gaussian_kernel, two_points. simpl.
    intros H. injection H as _ H _ _. apply exp_inv in H. lra.
  - intros H.
    destruct (row_normalize_cell (gaussian_kernel two_points 2) 2 0 1
                [exp (0 ^ 2 * (-1 / (2 * 2))); exp (1 ^ 2 * (-1 / (2 * 2)))]
                (exp (1 ^ 2 * (-1 / (2 * 2)))))
      as (p1 & Hp1 & Hc1); [repeat constructor | reflexivity | reflexivity |].
    destruct (row_normalize_cell (spec_gaussian_kernel two_points 2) 2 0 1
                [exp (- 0 ^ 2 / (2 * 2 ^ 2)); exp (- 1 ^ 2 / (2 * 2 ^ 2))]
                (exp (- 1 ^ 2 / (2 * 2 ^ 2))))
      as (p2 & Hp2 & Hc2); [repeat constructor | reflexivity | reflexivity |].
    rewrite H, Hp2 in Hp1. injection Hp1 as <-. rewrite Hc2 in Hc1.
    injection Hc1 as Hc. revert Hc. unfold rsum_list. cbn [foldr].
    repeat match goal with
           | |- context [exp ?t] =>
               first [ progress replace t with 0 by lra
                     | progress replace t with (- (1 / 4)) by lra
                     | progress replace t with (- (1 / 8)) by lra ]
           end.
    rewrite exp_0.
    pose proof (exp_pos (- (1 / 4))) as Ha. pose proof (exp_pos (- (1 / 8))) as Hb.
    assert (Hlt : exp (- (1 / 4)) < exp (- (1 / 8))) by (apply exp_increasing; lra).
    set (a := exp (- (1 / 4))) in *. set (b := exp (- (1 / 8))) in *.
    intros Hc.
    assert (Hb' : 1 / (1 + (b + 0)) * b * ((1 + b) * (1 + a)) = b * (1 + a)) by (field; lra).
    assert (Ha' : 1 / (1 + (a + 0)) * a * ((1 + b) * (1 + a)) = a * (1 + b)) by (field; lra).
    rewrite Hc, Ha' in Hb'. lra.
Qed.

End MarkovFacts.

(* ================================================================== *)
(** * DMap.compute: the eigenpairs that are kept                       *)
(* ================================================================== *)

Section ArgsortFacts.
Context {A : Type} (leb : A -> A -> bool).
Hypothesis leb_total : forall x y, leb x y = true \/ leb y x = true.
Hypothesis leb_trans : forall x y z, leb x y = true -> leb y z = true -> leb x z = true.







End ArgsortFacts.



Lemma mapM_ok {A B} (f : A -> result B) (g : A -> B) (l : list A) :
  Forall (fun a => f a = Ok (g a)) l -> mapM f l = Ok (map g l).
Proof.
  induction 1 as [|a l Ha _ IH]; simpl; [reflexivity|].
  rewrite Ha, IH. reflexivity.
Qed.


Section SelectFacts.
Import DMap.
Local Open Scope R_scope.











End SelectFacts.

(* ================================================================== *)
(** * Further properties: Graph and GraphLibrary                       *)
(* ================================================================== *)

Section GraphMetricFacts.

Lemma sumsq_ext (v w : list Q) :
  Forall2 Qeq v w -> (sumsq v == sumsq w)%Q.
Proof.
  induction 1 as [|x y v w Hxy _ IH]; simpl; [reflexivity|].
  rewrite Hxy, IH. reflexivity.
Qed.

Lemma sumsq_zip_swap (v w : list Q) :
  (sumsq (zip_with Qminus v w) == sumsq (zip_with Qminus w v))%Q.
Proof.
  revert w. induction v as [|x v IH]; intros [|y w]; simpl; try reflexivity.
  rewrite (IH w). ring.
Qed.

Lemma sumsq_bcast_swap (a : Q) (w : list Q) :
  (sumsq (map (fun b => a - b) w) == sumsq (map (fun b => b - a) w))%Q.
Proof.
  induction w as [|y w IH]; simpl; [reflexivity|].
  rewrite IH. ring.
Qed.

(** The difference of two signature vectors, taken either way round,
    fails alike or has the same sum of squares. *)
Lemma np_sub_swap (v w : list Q) :
  match np_sub v w, np_sub w v with
  | Ok d, Ok d' => (sumsq d == sumsq d')%Q
  | Raise e, Raise e' => e = e'
  | _, _ => False
  end.
Proof.
  unfold np_sub.
  destruct (decide (length v = length w)) as [Hl|Hl].
  - rewrite decide_True by congruence. apply sumsq_zip_swap.
  - rewrite decide_False by congruence.
    destruct v as [|a [|a' v]]; destruct w as [|b [|b' w]]; simpl in Hl;
      try congruence; cbv beta iota; try reflexivity;
      first [ apply sumsq_bcast_swap | symmetry; apply sumsq_bcast_swap ].
Qed.

Lemma graph_sub_swap (g h : Graph) :
  match graph_sub g h, graph_sub h g with
  | Ok d, Ok d' => (d == d')%Q
  | Raise e, Raise e' => e = e'
  | _, _ => False
  end.
Proof.
  unfold graph_sub. pose proof (np_sub_swap (ngdv g) (ngdv h)) as H.
  destruct (np_sub (ngdv g) (ngdv h)), (np_sub (ngdv h) (ngdv g)); simpl; exact H.
Qed.

Lemma Qcompare_0_ext (d d' : Q) : (d == d')%Q -> (0 ?= d)%Q = (0 ?= d')%Q.
Proof. intros H. rewrite H. reflexivity. Qed.

Lemma Qeq_bool_0_ext (d d' : Q) : (d == d')%Q -> Qeq_bool d 0 = Qeq_bool d' 0.
Proof.
  intros H. destruct (Qeq_bool d' 0) eqn:E.
  - apply Qeq_bool_iff. apply Qeq_bool_iff in E. rewrite H. exact E.
  - destruct (Qeq_bool d 0) eqn:E'; [|reflexivity].
    apply Qeq_bool_iff in E'. rewrite H in E'. apply Qeq_bool_iff in E'. congruence.
Qed.

(** X1. [Graph.__eq__] and [Graph.__ne__] do not depend on the order of
    the operands, and where the difference is defined they are each
    other's negation. *)
Theorem graph_eq_ne_symmetric (g h : Graph) :
  graph_eq g h = graph_eq h g /\
  graph_ne g h = graph_ne h g /\
  (forall b, graph_eq g h = Ok b -> graph_ne g h = Ok (negb b)).
Proof.
  unfold graph_eq, graph_ne. pose proof (graph_sub_swap g h) as Hs.
  assert (Hpos : forall d, graph_sub g h = Ok d -> (0 <= d)%Q).
  { intros d Hd. unfold graph_sub in Hd.
    destruct (np_sub (ngdv g) (ngdv h)); simpl in Hd; [|discriminate].
    injection Hd as <-. apply sumsq_nonneg. }
  destruct (graph_sub g h) as [d|e], (graph_sub h g) as [d'|e']; simpl; try contradiction.
  - split; [rewrite (Qeq_bool_0_ext d d' Hs); reflexivity|].
    split; [rewrite (Qcompare_0_ext d d' Hs); reflexivity|].
    intros b [= <-]. f_equal. specialize (Hpos d eq_refl).
    destruct (Qeq_bool d 0) eqn:E.
    + apply Qeq_bool_iff in E. symmetry in E. apply Qeq_alt in E. rewrite E. reflexivity.
    + destruct (0 ?= d)%Q eqn:Hc; [| reflexivity |].
      * apply Qeq_alt in Hc. symmetry in Hc. apply Qeq_bool_iff in Hc. congruence.
      * apply Qgt_alt in Hc. exfalso. apply (Qlt_not_le _ _ Hc Hpos).
  - subst. repeat split; try reflexivity. discriminate.
Qed.

End GraphMetricFacts.

Section LibraryInvariantFacts.
Import GraphLibrary.

Lemma consistent_init : library_consistent init.
Proof.
  split.
  - intros s i. simpl. rewrite lookup_empty, lookup_nil. split; discriminate.
  - intros i g. simpl. rewrite lookup_nil. discriminate.
Qed.

Lemma consistent_append (lib : t) (g : Graph) (c : Z) :
  library_wf lib -> library_consistent lib ->
  index lib !! str g = None ->
  library_consistent (append lib (str g) g c).1.
Proof.
  intros Hwf [Hix Hgs] Hnone. split; simpl.
  - intros s i. rewrite lookup_insert. case_decide as Hs.
    + subst s. split.
      * intros [= <-]. rewrite <- (wf_sigs _ Hwf).
        rewrite lookup_app_r by lia. rewrite Nat.sub_diag. reflexivity.
      * intros Hl. f_equal.
        destruct (decide (i < length (sigs lib))) as [Hlt|Hge].
        -- rewrite lookup_app_l in Hl by assumption.
           apply Hix in Hl. congruence.
        -- apply lookup_lt_Some in Hl. rewrite length_app in Hl. simpl in Hl.
           rewrite <- (wf_sigs _ Hwf). lia.
    + rewrite Hix. split.
      * intros Hl. rewrite lookup_app_l by (eapply lookup_lt_Some; eauto). exact Hl.
      * intros Hl. destruct (decide (i < length (sigs lib))) as [Hlt|Hge].
        -- rewrite lookup_app_l in Hl by assumption. exact Hl.
        -- rewrite lookup_app_r in Hl by lia.
           destruct (i - length (sigs lib)) as [|k]; simpl in Hl; [congruence|].
           rewrite lookup_nil in Hl. discriminate.
  - intros i g0 Hl. destruct (decide (i < length (graphs lib))) as [Hlt|Hge].
    + rewrite lookup_app_l in Hl by assumption.
      rewrite lookup_app_l by (rewrite (wf_sigs _ Hwf); assumption). apply Hgs. exact Hl.
    + rewrite lookup_app_r in Hl by lia. rewrite lookup_app_r by (rewrite (wf_sigs _ Hwf); lia).
      rewrite (wf_sigs _ Hwf).
      destruct (i - length (graphs lib)) as [|k]; simpl in *; [congruence|].
      rewrite lookup_nil in Hl. discriminate.
Qed.

(** In a well-formed library the index points inside [counts], so the
    bare [except:] is entered for a missing key only. *)
Lemma register_cases (lib : t) (g : Graph) (c : Z) :
  library_wf lib ->
  (exists i old, index lib !! str g = Some i /\ counts lib !! i = Some old /\
                 register lib (str g) g c
                 = (mk (sigs lib) (graphs lib) (<[i := (old + c)%Z]> (counts lib)) (index lib), i))
  \/ (index lib !! str g = None /\
      register lib (str g) g c = append lib (str g) g c).
Proof.
  intros Hwf. unfold register. destruct (index lib !! str g) as [i|] eqn:Hi; [left | right; auto].
  assert (Hlt : i < length (counts lib)).
  { rewrite (wf_counts _ Hwf). eapply wf_index; eauto. }
  destruct (lookup_lt_is_Some_2 _ _ Hlt) as [old Hold]. rewrite Hold. eauto.
Qed.

Lemma consistent_encounter (lib : t) (g : Graph) (c : Z) :
  library_wf lib -> library_consistent lib ->
  library_consistent (st (encounter lib g c)).
Proof.
  intros Hwf Hc. rewrite encounter_state.
  destruct (register_cases lib g c Hwf) as [(i & old & Hi & Hold & ->)|[Hnone ->]].
  - destruct Hc as [Hix Hgs]. split; simpl; assumption.
  - apply consistent_append; assumption.
Qed.

Lemma ok_collect_graphs (other : t) (b : bool) (gs : list Graph) :
  forall (self : t) (outp : list event) (idx : nat),
    library_wf self -> library_consistent self ->
    library_consistent (st (collect_graphs self outp other b gs idx)).
Proof.
  induction gs as [|G gs IH]; intros self outp idx Hwf Hc; simpl; [assumption|].
  destruct (if b then counts other !! idx else Some 0%Z) as [c|]; [|assumption].
  pose proof (wf_encounter self G c Hwf) as Hwf'.
  pose proof (consistent_encounter self G c Hwf Hc) as Hc'.
  destruct (res (encounter self G c)); [apply IH; assumption | exact Hc'].
Qed.

Lemma ok_collect_loop (b : bool) (others : list (pyobj t)) :
  forall (self : t) (outp : list event),
    library_wf self -> library_consistent self ->
    library_consistent (st (collect_loop self outp others b)).
Proof.
  induction others as [|[other|] rest IH]; intros self outp Hwf Hc; simpl; try assumption.
  pose proof (wf_collect_graphs other b (graphs other) self outp 0 Hwf) as Hwf'.
  pose proof (ok_collect_graphs other b (graphs other) self outp 0 Hwf Hc) as Hc'.
  destruct (res (collect_graphs self outp other b (graphs other) 0));
    [apply IH; assumption | exact Hc'].
Qed.

Lemma consistent_collect (self : t) (others : pyarg t) (b : bool) :
  library_wf self -> library_consistent self ->
  library_consistent (st (collect self others b)).
Proof.
  intros Hwf Hc. unfold collect.
  destruct (as_list others) as [|[o|] rest] eqn:E; try assumption.
  apply ok_collect_loop; assumption.
Qed.

Lemma consistent_NoDup (lib : t) : library_consistent lib -> NoDup (sigs lib).
Proof.
  intros [Hix _]. apply NoDup_alt. intros i j s Hi Hj.
  apply Hix in Hi, Hj. congruence.
Qed.

(** X2. The empty library is well formed and consistent, and [encounter]
    and [collect] keep it so whether they return or raise; in such a
    library no signature is stored twice. *)
Theorem library_invariant :
  (library_wf init /\ library_consistent init) /\
  (forall lib g c,
      library_wf lib /\ library_consistent lib ->
      library_wf (st (encounter lib g c)) /\ library_consistent (st (encounter lib g c))) /\
  (forall self others b,
      library_wf self /\ library_consistent self ->
      library_wf (st (collect self others b)) /\ library_consistent (st (collect self others b))) /\
  (forall lib, library_consistent lib -> NoDup (sigs lib)).
Proof.
  split; [split; [apply wf_init | apply consistent_init]|].
  split; [intros lib g c [Hwf Hc]; split; [apply wf_encounter | apply consistent_encounter]; assumption|].
  split; [intros self others b [Hwf Hc]; split; [apply wf_collect | apply consistent_collect]; assumption|].
  apply consistent_NoDup.
Qed.

(** The index that [encounter] returns is the one recorded under the
    signature. *)
Lemma encounter_index (lib : t) (g : Graph) (c : Z) (i : nat) :
  res (encounter lib g c) = Ok i ->
  index (st (encounter lib g c)) !! str g = Some i.
Proof.
  rewrite encounter_state. unfold encounter, register.
  destruct (index lib !! str g) as [j|] eqn:Hj.
  - destruct (counts lib !! j) as [old|] eqn:Hold; simpl.
    + destruct (graphs lib !! j) as [stored|]; [|discriminate].
      destruct (graph_ne stored g) as [[|]|]; try discriminate.
      intros [= <-]. exact Hj.
    + rewrite lookup_app_r by lia. rewrite Nat.sub_diag. simpl.
      rewrite graph_ne_refl. intros [= <-]. apply lookup_insert_eq.
  - simpl. rewrite lookup_app_r by lia. rewrite Nat.sub_diag. simpl.
    rewrite graph_ne_refl. intros [= <-]. apply lookup_insert_eq.
Qed.

(** X3. After an [encounter] that returned an index, [find] of the same
    graph returns that index. *)
Theorem find_after_encounter (lib : t) (g : Graph) (c : Z) (i : nat) :
  res (encounter lib g c) = Ok i ->
  find (st (encounter lib g c)) g = Some i.
Proof. unfold find. apply encounter_index. Qed.

Lemma find_after_encounter_witness :
  find (st (encounter one_graph_library lonely 2)) lonely = Some 1.
Proof.
  apply (find_after_encounter one_graph_library lonely 2 1). reflexivity.
Defined.

End LibraryInvariantFacts.

Section LibraryGrowthFacts.
Import GraphLibrary.

Lemma extends_refl (a : t) : library_extends a a.
Proof. split; [reflexivity | reflexivity | auto]. Qed.

Lemma extends_trans (a b c : t) :
  library_extends a b -> library_extends b c -> library_extends a c.
Proof.
  intros [G1 S1 I1] [G2 S2 I2]. split; [etrans; eauto | etrans; eauto | auto].
Qed.

Lemma extends_encounter (lib : t) (g : Graph) (c : Z) :
  library_wf lib -> library_extends lib (st (encounter lib g c)).
Proof.
  intros Hwf. rewrite encounter_state.
  destruct (register_cases lib g c Hwf) as [(i & old & Hi & Hold & ->)|[Hnone ->]].
  - split; simpl; [reflexivity | reflexivity | auto].
  - split; simpl; [apply prefix_app_r; reflexivity | apply prefix_app_r; reflexivity |].
    intros s i Hs. rewrite lookup_insert_ne; [assumption | congruence].
Qed.

Lemma extends_collect_graphs (other : t) (b : bool) (gs : list Graph) :
  forall (self : t) (outp : list event) (idx : nat),
    library_wf self ->
    library_extends self (st (collect_graphs self outp other b gs idx)).
Proof.
  induction gs as [|G gs IH]; intros self outp idx Hwf; simpl; [apply extends_refl|].
  destruct (if b then counts other !! idx else Some 0%Z) as [c|]; [|apply extends_refl].
  pose proof (wf_encounter self G c Hwf) as Hwf'.
  pose proof (extends_encounter self G c Hwf) as He.
  destruct (res (encounter self G c)); [|exact He].
  eapply extends_trans; [exact He | apply IH, Hwf'].
Qed.

Lemma extends_collect_loop (b : bool) (others : list (pyobj t)) :
  forall (self : t) (outp : list event),
    library_wf self ->
    library_extends self (st (collect_loop self outp others b)).
Proof.
  induction others as [|[other|] rest IH]; intros self outp Hwf; simpl;
    try apply extends_refl.
  pose proof (wf_collect_graphs other b (graphs other) self outp 0 Hwf) as Hwf'.
  pose proof (extends_collect_graphs other b (graphs other) self outp 0 Hwf) as He.
  destruct (res (collect_graphs self outp other b (graphs other) 0)); [|exact He].
  eapply extends_trans; [exact He | apply IH, Hwf'].
Qed.

(** X4. A well-formed library only grows: after [encounter] or [collect],
    returned or raised, the graphs and signatures it held are a prefix of
    the new ones and every signature keeps its index. *)
Theorem library_only_grows (lib : t) :
  library_wf lib ->
  (forall g c, library_extends lib (st (encounter lib g c))) /\
  (forall others b, library_extends lib (st (collect lib others b))).
Proof.
  intros Hwf. split.
  - intros g c. apply extends_encounter, Hwf.
  - intros others b. unfold collect.
    destruct (as_list others) as [|[o|] rest]; try apply extends_refl.
    apply extends_collect_loop, Hwf.
Qed.

Lemma library_only_grows_witness :
  (forall g c, library_extends one_graph_library (st (encounter one_graph_library g c))) /\
  (forall others b, library_extends one_graph_library (st (collect one_graph_library others b))).
Proof.
  apply (library_only_grows one_graph_library). apply wf_encounter, wf_init.
Defined.








End LibraryGrowthFacts.

(* ================================================================== *)
(** * Further properties: Ensemble.prune and computeDists              *)
(* ================================================================== *)

Section PruneFacts.
Import Ensemble.

(** [np.argwhere] lists exactly the positions where the test holds, in
    increasing order. *)
Lemma argwhere_from_spec {A} (P : A -> bool) (a : list A) :
  forall (i : nat),
    (forall j, j ∈ argwhere_from P i a <->
               exists k x, j = i + k /\ a !! k = Some x /\ P x = true) /\
    StronglySorted lt (argwhere_from P i a) /\
    Forall (fun j => i <= j) (argwhere_from P i a).
Proof.
  induction a as [|x a IH]; intros i; simpl.
  - split; [|split; constructor].
    intros j. split; [intros H; inversion H | intros (k & y & _ & H & _); inversion H].
  - destruct (IH (S i)) as (Hmem & Hsort & Hge).
    assert (Hmem' : forall j, j ∈ argwhere_from P (S i) a ->
                              exists k y, j = i + k /\ (x :: a) !! k = Some y /\ P y = true).
    { intros j Hj. apply Hmem in Hj. destruct Hj as (k & y & -> & Hk & Hy).
      exists (S k), y. split; [lia | auto]. }
    assert (Hback : forall k y, (x :: a) !! S k = Some y -> P y = true ->
                                i + S k ∈ argwhere_from P (S i) a).
    { intros k y Hk Hy. apply Hmem. exists k, y. split; [lia | auto]. }
    destruct (P x) eqn:Hx.
    + split; [|split].
      * intros j. rewrite elem_of_cons. split.
        -- intros [->|Hj]; [exists 0, x; split; [lia | auto] | auto].
        -- intros (k & y & -> & Hk & Hy). destruct k as [|k]; [left; lia | right; eauto].
      * constructor; [exact Hsort|]. eapply Forall_impl; [exact Hge|]. intros; simpl in *; lia.
      * constructor; [lia|]. eapply Forall_impl; [exact Hge|]. intros; simpl in *; lia.
    + split; [|split].
      * intros j. split; [auto|].
        intros (k & y & -> & Hk & Hy). destruct k as [|k]; [|eauto].
        simpl in Hk. congruence.
      * exact Hsort.
      * eapply Forall_impl; [exact Hge|]. intros; simpl in *; lia.
Qed.

Lemma take_idx_Forall2 {A} (a : list A) (idx : list nat) :
  Forall (fun i => i < length a) idx ->
  exists xs, take_idx a idx = Ok xs /\ Forall2 (fun i x => a !! i = Some x) idx xs.
Proof.
  induction 1 as [|i idx Hi _ (xs & Hxs & Hall)]; simpl.
  - exists []. split; [reflexivity | constructor].
  - destruct (lookup_lt_is_Some_2 a i Hi) as [x Hx]. rewrite Hx, Hxs. simpl.
    exists (x :: xs). split; [reflexivity | constructor; assumption].
Qed.

(** X6. On the coordinator, [prune] with an integer threshold on a
    well-formed library returns, changes nothing but the landmarks, and
    selects as landmarks exactly the positions whose count is at least the
    threshold, in increasing order, together with their signatures. *)
Theorem prune_selects_frequent (self : t) (min_freq : Z) :
  master self = true ->
  library_wf (library self) ->
  res (prune self (Some min_freq)) = Ok tt /\
  library (st (prune self (Some min_freq))) = library self /\
  lookups (st (prune self (Some min_freq))) = lookups self /\
  dists (st (prune self (Some min_freq))) = dists self /\
  exists idx sg,
    lm_idx (st (prune self (Some min_freq))) = Some idx /\
    lm_sigs (st (prune self (Some min_freq))) = Some sg /\
    (forall i, i ∈ idx <->
               exists c, GraphLibrary.counts (library self) !! i = Some c /\ (min_freq <= c)%Z) /\
    StronglySorted lt idx /\
    Forall2 (fun i s => GraphLibrary.sigs (library self) !! i = Some s) idx sg.
Proof.
  intros Hm Hwf. unfold prune. rewrite Hm. cbn [negb].
  destruct (argwhere_from_spec (fun y => bool_decide (min_freq <= y)%Z)
                               (GraphLibrary.counts (library self)) 0)
    as (Hmem & Hsort & _).
  fold (argwhere_ge (GraphLibrary.counts (library self)) min_freq) in Hmem, Hsort.
  assert (Hin : Forall (fun i => i < length (GraphLibrary.sigs (library self)))
                       (argwhere_ge (GraphLibrary.counts (library self)) min_freq)).
  { apply Forall_forall. intros i Hi. apply Hmem in Hi. destruct Hi as (k & c & -> & Hk & _).
    rewrite (wf_sigs _ Hwf), <- (wf_counts _ Hwf). eapply lookup_lt_Some; eauto. }
  destruct (take_idx_Forall2 _ _ Hin) as (sg & -> & Hsg). cbn [st res].
  repeat split; try reflexivity.
  eexists _, sg. split; [reflexivity|]. split; [reflexivity|].
  split; [|split; assumption].
  intros i. rewrite Hmem. split.
  - intros (k & c & -> & Hk & Hc). exists c. split; [exact Hk|].
    apply bool_decide_eq_true in Hc. exact Hc.
  - intros (c & Hk & Hc). exists i, c. split; [reflexivity|]. split; [exact Hk|].
    apply bool_decide_eq_true. exact Hc.
Qed.

Lemma prune_selects_frequent_witness :
  res (prune coordinator (Some 1%Z)) = Ok tt /\
  library (st (prune coordinator (Some 1%Z))) = library coordinator /\
  lookups (st (prune coordinator (Some 1%Z))) = lookups coordinator /\
  dists (st (prune coordinator (Some 1%Z))) = dists coordinator /\
  exists idx sg,
    lm_idx (st (prune coordinator (Some 1%Z))) = Some idx /\
    lm_sigs (st (prune coordinator (Some 1%Z))) = Some sg /\
    (forall i, i ∈ idx <->
               exists c, GraphLibrary.counts (library coordinator) !! i = Some c /\ (1 <= c)%Z) /\
    StronglySorted lt idx /\
    Forall2 (fun i s => GraphLibrary.sigs (library coordinator) !! i = Some s) idx sg.
Proof.
  apply (prune_selects_frequent coordinator 1).
  - reflexivity.
  - apply wf_encounter, wf_encounter, wf_init.
Defined.

End PruneFacts.

Section ComputedCellsFacts.
Import Ensemble.

Lemma argwhere_eq_NoDup (l : list nat) (j x : nat) :
  NoDup l -> l !! j = Some x -> exists rest, argwhere_eq l x = j :: rest.
Proof.
  intros Hnd Hj. unfold argwhere_eq.
  destruct (argwhere_from_spec (fun y => bool_decide (y = x)) l 0) as (Hmem & _ & _).
  assert (Hin : j ∈ argwhere_from (fun y => bool_decide (y = x)) 0 l).
  { apply Hmem. exists j, x. split; [reflexivity|]. split; [exact Hj|].
    apply bool_decide_eq_true. reflexivity. }
  destruct (argwhere_from (fun y => bool_decide (y = x)) 0 l) as [|jid rest] eqn:E;
    [inversion Hin|].
  assert (Hjid : jid ∈ jid :: rest) by (apply elem_of_cons; tauto).
  apply Hmem in Hjid. destruct Hjid as (k & y & -> & Hk & Hy).
  apply bool_decide_eq_true in Hy. subst y.
  rewrite (NoDup_lookup l k j x Hnd Hk Hj). eauto.
Qed.

Lemma cell_pos_inj (m i j i0 j0 : nat) :
  j < m -> j0 < m -> i * m + j = i0 * m + j0 -> i = i0 /\ j = j0.
Proof.
  intros Hj Hj0 Heq.
  assert (i = i0) as ->.
  { destruct (Nat.lt_trichotomy i i0) as [Hlt|[Hlt|Hlt]]; [|assumption|]; exfalso.
    - assert ((i + 1) * m <= i0 * m) by (apply Nat.mul_le_mono_r; lia). lia.
    - assert ((i0 + 1) * m <= i * m) by (apply Nat.mul_le_mono_r; lia). lia. }
  split; [reflexivity | lia].
Qed.

Lemma shape_set_cell (n m : nat) (d d' : list (list cell)) (i j : nat) (x : cell) :
  cells_shape n m d -> set_cell d i j x = Ok d' -> cells_shape n m d'.
Proof.
  intros [Hn Hm]. unfold set_cell.
  destruct (d !! i) as [row|] eqn:Hrow; [|discriminate].
  case_decide; [|discriminate]. intros [= <-]. split.
  - rewrite length_insert. exact Hn.
  - apply Forall_insert; [exact Hm|]. rewrite length_insert.
    eapply (proj1 (Forall_lookup _ _) Hm); eauto.
Qed.

Lemma set_cell_ok (n m : nat) (d : list (list cell)) (i j : nat) (x : cell) :
  cells_shape n m d -> i < n -> j < m ->
  exists d', set_cell d i j x = Ok d' /\ cell_at d' i j = Some x.
Proof.
  intros [Hn Hm] Hi Hj. unfold set_cell, cell_at.
  destruct (lookup_lt_is_Some_2 d i ltac:(lia)) as [row Hrow]. rewrite Hrow.
  assert (Hlen : length row = m) by (eapply (proj1 (Forall_lookup _ _) Hm); eauto).
  rewrite decide_True by lia. eexists. split; [reflexivity|].
  rewrite list_lookup_insert_eq by lia. apply list_lookup_insert_eq. lia.
Qed.

Lemma shape_inf_matrix (n m : nat) : cells_shape n m (inf_matrix n m).
Proof.
  unfold inf_matrix. split; [apply length_replicate|].
  apply Forall_replicate. apply length_replicate.
Qed.

(** With distinct landmarks, assembly writes the result of task [k] to
    cell [k] and to no other. *)
Lemma assemble_cells (n m : nat) (l : list nat) (results : list Q) :
  NoDup l ->
  forall (tasks : list (nat * nat)) (d : list (list cell)) (k0 : nat),
    cells_shape n m d ->
    tasks_from n m l k0 tasks ->
    length results <= length tasks ->
    forall i j, j < m ->
      cell_at (assemble d (Some l) tasks results).1 i j
      = if decide (k0 <= i * m + j < k0 + length results)
        then Dist <$> results !! (i * m + j - k0)
        else cell_at d i j.
Proof.
  intros Hnd. induction results as [|r results IH]; intros tasks d k0 Hshape Htasks Hlen i j Hj.
  - simpl. rewrite decide_False by lia. reflexivity.
  - destruct tasks as [|[i0 x] tasks]; [simpl in Hlen; lia|].
    destruct (Htasks 0 (i0, x) eq_refl) as (j0 & HK & Hj0 & Hi0 & Hx). simpl in HK, Hi0, Hx.
    destruct (argwhere_eq_NoDup l j0 x Hnd Hx) as [rest Harg].
    destruct (set_cell_ok n m d i0 j0 (Dist r) Hshape Hi0 Hj0) as (d' & Hset & Hcell).
    cbn [assemble]. rewrite Harg, Hset.
    rewrite (IH tasks d' (S k0)); [| eapply shape_set_cell; eauto | | simpl in Hlen; lia | exact Hj].
    + cbn [length]. destruct (decide (i * m + j = k0)) as [Heq|Hne].
      * rewrite decide_False by lia. rewrite decide_True by lia.
        replace (i * m + j - k0) with 0 by lia. simpl.
        destruct (cell_pos_inj m i j i0 j0) as [-> ->]; [lia | lia | lia |]. exact Hcell.
      * rewrite (cell_at_set_other d d' i0 j0 i j (Dist r) Hset) by (intros [= -> ->]; lia).
        destruct (decide (S k0 <= i * m + j < S k0 + length results)) as [Hin|Hout].
        -- rewrite decide_True by lia.
           replace (i * m + j - k0) with (S (i * m + j - S k0)) by lia. reflexivity.
        -- rewrite decide_False by lia. reflexivity.
    + intros k t Hk. destruct (Htasks (S k) t Hk) as (j' & HK' & Hrest).
      exists j'. split; [lia | exact Hrest].
Qed.

Lemma task_list_ok (n m : nat) (l : list nat) :
  m <= length l ->
  exists tasks, task_list n m (Some l) = Ok tasks /\
                length tasks = n * m /\ tasks_from n m l 0 tasks.
Proof.
  intros Hm. unfold task_list.
  assert (Hrow : forall i : nat,
             mapM (fun j => rbind (lm_at (Some l) j) (fun x => Ok (i, x))) (seq 0 m)
             = Ok (map (fun j => (i, nth j l 0)) (seq 0 m))).
  { intros i. apply mapM_ok. apply Forall_forall. intros j Hj.
    apply elem_of_seq in Hj. unfold lm_at.
    destruct (lookup_lt_is_Some_2 l j ltac:(lia)) as [x Hx]. rewrite Hx. simpl.
    rewrite (nth_lookup_Some _ _ _ _ Hx). reflexivity. }
  rewrite (mapM_ok _ (fun i : nat => map (fun j => (i, nth j l 0)) (seq 0 m)))
    by (apply Forall_forall; intros i _; apply Hrow).
  cbn [rbind]. eexists. split; [reflexivity|].
  assert (Hlen : forall cnt i0,
             length (concat (map (fun i : nat => map (fun j => (i, nth j l 0)) (seq 0 m)) (seq i0 cnt)))
             = cnt * m).
  { induction cnt as [|cnt IHc]; intros i0; simpl; [reflexivity|].
    rewrite length_app, length_map, length_seq, IHc. reflexivity. }
  split; [apply Hlen|].
  intros k t Hk.
  assert (Hlt : k < n * m) by (rewrite <- (Hlen n 0); eapply lookup_lt_Some; eauto).
  assert (Hspec := task_list_spec n m (Some l)).
  unfold task_list in Hspec. rewrite (mapM_ok _ (fun i : nat => map (fun j => (i, nth j l 0)) (seq 0 m)))
    in Hspec by (apply Forall_forall; intros i _; apply Hrow).
  destruct (Hspec _ eq_refl k t Hk) as (j & HK & Hj & Hlm).
  exists j. split; [simpl; exact HK|]. split; [exact Hj|]. split.
  { destruct (decide (t.1 < n)) as [|Hge]; [assumption | exfalso].
    assert (n * m <= t.1 * m) by (apply Nat.mul_le_mono_r; lia). lia. }
  unfold lm_at in Hlm. destruct (l !! j); [congruence | discriminate].
Qed.

(** X7. On the coordinator, with distinct landmarks as [prune] leaves
    them, [computeDists] stores the result of task [i * m + j] in cell
    [(i, j)]: after the call, returned or raised, every cell with an entry
    in the result list holds that distance. *)
Theorem computed_cells_hold_results
        (best_cluster : list (list cell) -> nat -> result (list nat))
        (self : t) (result_list : list Q) (detect_outliers : bool)
        (lm : list nat) (sg : list string) :
  master self = true ->
  lm_idx self = Some lm ->
  lm_sigs self = Some sg ->
  length sg <= length lm ->
  NoDup lm ->
  length result_list <= length (GraphLibrary.sigs (library self)) * length sg ->
  exists d,
    dists (st (computeDists best_cluster self result_list detect_outliers)) = Some d /\
    forall i j q,
      j < length sg ->
      result_list !! (i * length sg + j) = Some q ->
      cell_at d i j = Some (Dist q).
Proof.
  intros Hm Hlm Hsg Hlen Hnd Hres. unfold computeDists. rewrite Hm, Hsg. cbn [negb].
  set (n := length (GraphLibrary.sigs (library self))) in *. set (m := length sg) in *.
  cbn [lm_idx set_dists]. rewrite Hlm.
  destruct (task_list_ok n m lm Hlen) as (tasks & -> & Htl & Htasks).
  pose proof (assemble_cells n m lm result_list Hnd tasks (inf_matrix n m) 0
                (shape_inf_matrix n m) Htasks ltac:(lia)) as Hcells.
  destruct (assemble (inf_matrix n m) (Some lm) tasks result_list) as [d r] eqn:Has.
  simpl in Hcells. exists d. split.
  - destruct r; [destruct detect_outliers|]; try reflexivity.
    rewrite detect_dists. reflexivity.
  - intros i j q Hj Hq. rewrite Hcells by exact Hj.
    assert (i * m + j < length result_list) by (eapply lookup_lt_Some; eauto).
    rewrite decide_True by lia. rewrite Nat.sub_0_r, Hq. reflexivity.
Qed.

Lemma computed_cells_hold_results_witness :
  exists d,
    dists (st (computeDists (fun _ _ => Ok []) coordinator [0%Q; (1 # 2)%Q] false)) = Some d /\
    forall i j q,
      j < length [str two_nodes] ->
      [0%Q; (1 # 2)%Q] !! (i * length [str two_nodes] + j) = Some q ->
      cell_at d i j = Some (Dist q).
Proof.
  apply (computed_cells_hold_results (fun _ _ => Ok []) coordinator [0%Q; (1 # 2)%Q] false
                                     [0] [str two_nodes]).
  - reflexivity.
  - reflexivity.
  - reflexivity.
  - vm_compute. lia.
  - apply NoDup_singleton.
  - vm_compute. lia.
Defined.

End ComputedCellsFacts.

(* ================================================================== *)
(** * Further properties: Ensemble.collect                             *)
(* ================================================================== *)

Section CollectUnionFacts.
Import Ensemble.

Lemma dict_get_keys {V} (d : list (nat * V)) (k : nat) :
  dict_mem k d = true <-> k ∈ map fst d.
Proof.
  unfold dict_mem. induction d as [|[k' v'] d IH]; simpl.
  - split; [discriminate | intros H; inversion H].
  - rewrite elem_of_cons. destruct (decide (k = k')) as [->|Hne]; [tauto|].
    rewrite IH. simpl. tauto.
Qed.

Lemma dict_get_Some_mem {V} (d : list (nat * V)) (k : nat) (v : V) :
  dict_get k d = Some v -> dict_mem k d = true.
Proof. unfold dict_mem. intros ->. reflexivity. Qed.

Lemma merge_lookups_absent (items : list (nat * lookup)) (k : nat) :
  forall (lk : list (nat * lookup)) (outp : list event),
    k ∉ map fst items ->
    dict_get k (merge_lookups lk outp items).1 = dict_get k lk.
Proof.
  induction items as [|[key val] rest IH]; intros lk outp Hk; simpl; [reflexivity|].
  simpl in Hk. rewrite not_elem_of_cons in Hk. destruct Hk as [Hne Hk].
  rewrite IH by exact Hk. apply dict_get_set_ne. congruence.
Qed.

Lemma merge_lookups_present (items : list (nat * lookup)) (k : nat) (v : lookup) :
  forall (lk : list (nat * lookup)) (outp : list event),
    NoDup (map fst items) ->
    dict_get k items = Some v ->
    dict_get k (merge_lookups lk outp items).1 = Some v.
Proof.
  induction items as [|[key val] rest IH]; intros lk outp Hnd Hget; simpl in *; [discriminate|].
  apply NoDup_cons in Hnd. destruct Hnd as [Hkey Hnd].
  destruct (decide (k = key)) as [->|Hne].
  - injection Hget as ->. rewrite merge_lookups_absent by exact Hkey.
    apply dict_get_set_eq.
  - apply IH; assumption.
Qed.

Lemma merge_lookups_keys (items : list (nat * lookup)) (k : nat) :
  forall (lk : list (nat * lookup)) (outp : list event),
    dict_mem k (merge_lookups lk outp items).1 = true
    <-> dict_mem k lk = true \/ k ∈ map fst items.
Proof.
  induction items as [|[key val] rest IH]; intros lk outp; simpl.
  - split; [tauto | intros [H|H]; [exact H | inversion H]].
  - rewrite IH, dict_mem_set, elem_of_cons. tauto.
Qed.

(** The lookups after the loop over the gathered ensembles. *)
Lemma collect_loop_lookups (others : list (pyobj t)) (k : nat) :
  forall (self : t) (outp : list event),
    ((forall o, Inst o ∈ others -> k ∉ map fst (lookups o)) ->
     dict_get k (lookups (st (collect_loop self outp others))) = dict_get k (lookups self)) /\
    (res (collect_loop self outp others) = Ok tt ->
     (dict_mem k (lookups (st (collect_loop self outp others))) = true
      <-> dict_mem k (lookups self) = true
          \/ exists o, Inst o ∈ others /\ k ∈ map fst (lookups o))).
Proof.
  induction others as [|[other|] rest IH]; intros self outp.
  - simpl. split; [reflexivity|]. intros _. split; [tauto|].
    intros [H|(o & H & _)]; [exact H | inversion H].
  - rewrite collect_loop_step. cbv zeta.
    set (r0 := GraphLibrary.collect (library self) (One (Inst (library other))) true).
    destruct (res r0) as [u|e].
    + set (m := merge_lookups (lookups self) (outp ++ out r0) (lookups other)).
      destruct (IH (set_lookups (set_library self (st r0)) m.1) m.2) as [IHa IHk].
      cbn [lookups set_lookups] in IHa, IHk. split.
      * intros Habs. rewrite IHa by (intros o Ho; apply Habs, elem_of_cons; tauto).
        apply merge_lookups_absent. apply Habs, elem_of_cons. tauto.
      * intros Hok. rewrite (IHk Hok). unfold m. rewrite merge_lookups_keys. split.
        -- intros [[H|H]|(o & Ho & Hk)]; [tauto | right; exists other | right; exists o];
             (split; [apply elem_of_cons; tauto | assumption]).
        -- intros [H|(o & Ho & Hk)]; [tauto|].
           apply elem_of_cons in Ho. destruct Ho as [[= <-]|Ho]; [tauto | right; eauto].
    + simpl. split; [reflexivity | discriminate].
  - simpl. split; [reflexivity | discriminate].
Qed.

Lemma collect_loop_last (pre : list (pyobj t)) :
  forall (self : t) (outp : list event) (o : t) (post : list (pyobj t)) (k : nat) (v : lookup),
    NoDup (map fst (lookups o)) ->
    dict_get k (lookups o) = Some v ->
    (forall o', Inst o' ∈ post -> k ∉ map fst (lookups o')) ->
    res (collect_loop self outp (pre ++ Inst o :: post)) = Ok tt ->
    dict_get k (lookups (st (collect_loop self outp (pre ++ Inst o :: post)))) = Some v.
Proof.
  induction pre as [|[other|] pre IH]; intros self outp o post k v Hnd Hget Hpost.
  - simpl app. rewrite collect_loop_step. cbv zeta.
    set (r0 := GraphLibrary.collect (library self) (One (Inst (library o))) true).
    destruct (res r0) as [u|e]; [|discriminate].
    intros _.
    set (m := merge_lookups (lookups self) (outp ++ out r0) (lookups o)).
    destruct (collect_loop_lookups post k (set_lookups (set_library self (st r0)) m.1) m.2)
      as [Habs _].
    rewrite (Habs Hpost). cbn [lookups set_lookups].
    apply merge_lookups_present; assumption.
  - simpl app. rewrite collect_loop_step. cbv zeta.
    destruct (res (GraphLibrary.collect (library self) (One (Inst (library other))) true));
      [|discriminate].
    apply IH; assumption.
  - simpl. discriminate.
Qed.

(** X8. When [collect] completes on the coordinator for a list of
    gathered ensembles, the frame keys it then holds are those it held
    before together with those of every gathered ensemble; a key keeps its
    entry if no gathered ensemble has it, and otherwise ends with the
    entry of the last gathered ensemble that has it. *)
Theorem collect_unions_lookups (self : t) (others : list (pyobj t)) :
  master self = true ->
  res (collect self (Many others)) = Ok tt ->
  (forall k, dict_mem k (lookups (st (collect self (Many others)))) = true
             <-> dict_mem k (lookups self) = true
                 \/ exists o, Inst o ∈ others /\ k ∈ map fst (lookups o)) /\
  (forall k, (forall o, Inst o ∈ others -> k ∉ map fst (lookups o)) ->
             dict_get k (lookups (st (collect self (Many others)))) = dict_get k (lookups self)) /\
  (forall pre o post k v,
      others = pre ++ Inst o :: post ->
      NoDup (map fst (lookups o)) ->
      dict_get k (lookups o) = Some v ->
      (forall o', Inst o' ∈ post -> k ∉ map fst (lookups o')) ->
      dict_get k (lookups (st (collect self (Many others)))) = Some v).
Proof.
  intros Hm. unfold collect. rewrite Hm. cbn [negb as_list].
  destruct others as [|[o0|] rest0].
  - intros _. cbn [st]. split; [|split].
    + intros k. split; [tauto | intros [H|(o & H & _)]; [exact H | inversion H]].
    + reflexivity.
    + intros pre o post k v E. destruct pre; discriminate.
  - destruct (res (collect_loop self [] (Inst o0 :: rest0))) as [[]|e] eqn:Hr;
      [|rewrite Hr; discriminate].
    intros _. cbn [st]. split; [|split].
    + intros k. apply (collect_loop_lookups (Inst o0 :: rest0) k self []). exact Hr.
    + intros k. apply (collect_loop_lookups (Inst o0 :: rest0) k self []).
    + intros pre o post k v E Hnd Hget Hpost. rewrite E in Hr |- *.
      apply collect_loop_last; assumption.
  - discriminate.
Qed.

Lemma collect_unions_lookups_witness :
  (forall k, dict_mem k (lookups (st (collect (init true) (Many [Inst worker_a; Inst worker_b]))))
             = true
             <-> dict_mem k (lookups (init true)) = true
                 \/ exists o, Inst o ∈ [Inst worker_a; Inst worker_b] /\ k ∈ map fst (lookups o)) /\
  (forall k, (forall o, Inst o ∈ [Inst worker_a; Inst worker_b] -> k ∉ map fst (lookups o)) ->
             dict_get k (lookups (st (collect (init true) (Many [Inst worker_a; Inst worker_b]))))
             = dict_get k (lookups (init true))) /\
  (forall pre o post k v,
      [Inst worker_a; Inst worker_b] = pre ++ Inst o :: post ->
      NoDup (map fst (lookups o)) ->
      dict_get k (lookups o) = Some v ->
      (forall o', Inst o' ∈ post -> k ∉ map fst (lookups o')) ->
      dict_get k (lookups (st (collect (init true) (Many [Inst worker_a; Inst worker_b]))))
      = Some v).
Proof.
  apply (collect_unions_lookups (init true) [Inst worker_a; Inst worker_b]); reflexivity.
Defined.

End CollectUnionFacts.

(* ================================================================== *)
(** * Further properties: GraphLibrary.build                           *)
(* ================================================================== *)

Section StringDictFacts.
Context {V : Type}.
Implicit Types (d : list (string * V)) (k : string) (v : V).

Lemma sdict_get_app_absent d k v :
  sdict_get k d = None -> sdict_get k (d ++ [(k, v)]) = Some v.
Proof.
  induction d as [|[k' v'] d IH]; simpl.
  - intros _. rewrite decide_True by reflexivity. reflexivity.
  - destruct (decide (k = k')); [discriminate | exact IH].
Qed.

Lemma sdict_get_app_other d k k' v :
  k <> k' -> sdict_get k (d ++ [(k', v)]) = sdict_get k d.
Proof.
  intros Hne. induction d as [|[k0 v0] d IH]; simpl.
  - rewrite decide_False by assumption. reflexivity.
  - destruct (decide (k = k0)); [reflexivity | exact IH].
Qed.

Lemma sdict_set_absent d k v :
  sdict_get k d = None -> sdict_set k v d = d ++ [(k, v)].
Proof.
  induction d as [|[k' v'] d IH]; simpl; [reflexivity|].
  destruct (decide (k = k')); [discriminate|]. intros H. rewrite IH by exact H. reflexivity.
Qed.

Lemma sdict_set_last d k v v' :
  sdict_get k d = None -> sdict_set k v' (d ++ [(k, v)]) = d ++ [(k, v')].
Proof.
  induction d as [|[k' v0] d IH]; simpl.
  - intros _. rewrite decide_True by reflexivity. reflexivity.
  - destruct (decide (k = k')); [discriminate|]. intros H. rewrite IH by exact H. reflexivity.
Qed.

Lemma sdict_get_None_keys d k : sdict_get k d = None <-> k ∉ map fst d.
Proof.
  induction d as [|[k' v'] d IH]; simpl.
  - split; [intros _ H; inversion H | reflexivity].
  - rewrite not_elem_of_cons. destruct (decide (k = k')); [split; [discriminate | tauto] | tauto].
Qed.

Lemma sdict_get_tabulate (f : string -> V) (keys : list string) k :
  sdict_get k (map (fun s => (s, f s)) keys) = if decide (k ∈ keys) then Some (f k) else None.
Proof.
  induction keys as [|k' keys IH]; cbn [map sdict_get].
  - rewrite decide_False by (intros H; inversion H). reflexivity.
  - cbn [fst snd]. destruct (decide (k = k')) as [->|Hne].
    + rewrite decide_True by (apply elem_of_cons; tauto). reflexivity.
    + rewrite IH. destruct (decide (k ∈ keys)) as [Hin|Hnin].
      * rewrite decide_True by (apply elem_of_cons; tauto). reflexivity.
      * rewrite decide_False by (rewrite elem_of_cons; tauto). reflexivity.
Qed.

End StringDictFacts.

Section BuildFacts.
Import GraphLibrary LibraryBuild.
Variable Graph_init : list (list Z) -> Graph.

(** [nn_idx] holds, for every neighbourhood, the index under which the
    library then knows its signature. *)
Lemma build_index_spec (nns : list (list (list Z))) :
  forall (self : t) (outp : list event) (nn_idx : list nat),
    library_wf self -> library_consistent self ->
    res (build_index Graph_init self outp nns) = Ok nn_idx ->
    library_wf (st (build_index Graph_init self outp nns)) /\
    library_consistent (st (build_index Graph_init self outp nns)) /\
    library_extends self (st (build_index Graph_init self outp nns)) /\
    length nn_idx = length nns /\
    forall p nn, nns !! p = Some nn ->
      exists i, nn_idx !! p = Some i /\
                index (st (build_index Graph_init self outp nns)) !! str (Graph_init nn) = Some i.
Proof.
  induction nns as [|nn0 nns IH]; intros self outp nn_idx Hwf Hc; simpl.
  - intros [= <-]. split; [exact Hwf|]. split; [exact Hc|]. split; [apply extends_refl|].
    split; [reflexivity|]. intros p nn H. inversion H.
  - pose proof (wf_encounter self (Graph_init nn0) 1 Hwf) as Hwf1.
    pose proof (consistent_encounter self (Graph_init nn0) 1 Hwf Hc) as Hc1.
    pose proof (extends_encounter self (Graph_init nn0) 1 Hwf) as He1.
    pose proof (encounter_index self (Graph_init nn0) 1) as Hidx.
    destruct (res (encounter self (Graph_init nn0) 1)) as [idx|e]; [|discriminate].
    cbn [st res].
    set (r' := build_index Graph_init (st (encounter self (Graph_init nn0) 1))
                           (outp ++ out (encounter self (Graph_init nn0) 1)) nns) in *.
    destruct (res r') as [l|e] eqn:Hr'; [|discriminate]. simpl. intros [= <-].
    destruct (IH _ _ l Hwf1 Hc1 Hr') as (Hwf' & Hc' & He' & Hlen & Hall). fold r' in Hwf', Hc', He', Hall.
    split; [exact Hwf'|]. split; [exact Hc'|].
    split; [eapply extends_trans; eauto|]. split; [simpl; lia|].
    intros [|p] nn Hp; simpl in Hp.
    + injection Hp as <-. exists idx. split; [reflexivity|].
      apply (ext_index _ _ He'). apply Hidx. reflexivity.
    + apply Hall. exact Hp.
Qed.

(** The second loop tabulates, for the signatures not yet in the dict,
    the positions of [nn_idx] that hold their index. *)
Lemma build_lookup_spec (lib : t) (nn_idx : list nat) (sigs_iter : list string) :
  forall (acc : list (string * list nat)),
    NoDup sigs_iter ->
    (forall s, s ∈ sigs_iter -> sdict_get s acc = None) ->
    (forall s, s ∈ sigs_iter -> is_Some (index lib !! s)) ->
    build_lookup lib nn_idx sigs_iter acc
    = Ok (acc ++ map (fun s => (s, argwhere_eq nn_idx (default 0 (index lib !! s)))) sigs_iter).
Proof.
  induction sigs_iter as [|sig rest IH]; intros acc Hnd Hfresh Hix; simpl.
  - rewrite app_nil_r. reflexivity.
  - apply NoDup_cons in Hnd. destruct Hnd as [Hsig Hnd].
    assert (Hacc : sdict_get sig acc = None) by (apply Hfresh, elem_of_cons; tauto).
    unfold sdict_mem. rewrite Hacc. rewrite (sdict_set_absent acc sig [] Hacc).
    rewrite (sdict_get_app_absent acc sig [] Hacc).
    destruct (Hix sig ltac:(apply elem_of_cons; tauto)) as [i Hi]. rewrite Hi. simpl.
    rewrite (sdict_set_last acc sig [] _ Hacc).
    rewrite IH.
    + rewrite <- app_assoc. reflexivity.
    + exact Hnd.
    + intros s Hs. rewrite sdict_get_app_other by (intros ->; contradiction).
      apply Hfresh, elem_of_cons. tauto.
    + intros s Hs. apply Hix, elem_of_cons. tauto.
Qed.

Lemma argwhere_eq_spec (a : list nat) (x p : nat) :
  p ∈ argwhere_eq a x <-> a !! p = Some x.
Proof.
  unfold argwhere_eq.
  destruct (argwhere_from_spec (fun y => bool_decide (y = x)) a 0) as (Hmem & _ & _).
  rewrite Hmem. split.
  - intros (k & y & -> & Hk & Hy). apply bool_decide_eq_true in Hy. subst. exact Hk.
  - intros Hp. exists p, x. split; [reflexivity|]. split; [exact Hp|].
    apply bool_decide_eq_true. reflexivity.
Qed.

(** What [build] returns on a well-formed, consistent library. *)
Lemma build_spec (self : t) (nns : list (list (list Z))) (lk : list (string * list nat)) :
  library_wf self -> library_consistent self ->
  res (build Graph_init self nns) = Ok lk ->
  map fst lk = sigs (st (build Graph_init self nns)) /\
  (forall sig ps, sdict_get sig lk = Some ps ->
     StronglySorted lt ps /\
     forall p, p ∈ ps <-> exists nn, nns !! p = Some nn /\ str (Graph_init nn) = sig) /\
  (forall p nn, nns !! p = Some nn ->
     exists ps, sdict_get (str (Graph_init nn)) lk = Some ps /\ p ∈ ps).
Proof.
  intros Hwf Hc. unfold build.
  pose proof (build_index_spec nns self [] ) as Hspec.
  destruct (res (build_index Graph_init self [] nns)) as [nn_idx|e] eqn:Hr; [|discriminate].
  destruct (Hspec nn_idx Hwf Hc eq_refl) as (Hwf' & Hc' & _ & Hlen & Hall).
  cbn [st res].
  set (lib := st (build_index Graph_init self [] nns)) in *.
  rewrite (build_lookup_spec lib nn_idx (sigs lib) []);
    [| apply consistent_NoDup; exact Hc' | reflexivity |].
  2:{ intros s Hs. apply list_elem_of_lookup in Hs. destruct Hs as [i Hi].
      exists i. apply (lc_index_sigs _ Hc'). exact Hi. }
  cbn [app]. intros [= <-].
  assert (Hkey : forall sig, sig ∈ sigs lib ->
            forall p, p ∈ argwhere_eq nn_idx (default 0 (index lib !! sig))
                      <-> exists nn, nns !! p = Some nn /\ str (Graph_init nn) = sig).
  { intros sig Hs p. apply list_elem_of_lookup in Hs. destruct Hs as [i Hi].
    pose proof (proj2 (lc_index_sigs _ Hc' sig i) Hi) as Hix. rewrite Hix. simpl.
    rewrite argwhere_eq_spec. split.
    - intros Hp.
      assert (Hlt : p < length nns) by (rewrite <- Hlen; eapply lookup_lt_Some; eauto).
      destruct (lookup_lt_is_Some_2 nns p Hlt) as [nn Hnn]. exists nn. split; [exact Hnn|].
      destruct (Hall p nn Hnn) as (i' & Hi' & Hidx). rewrite Hp in Hi'. injection Hi' as <-.
      apply (lc_index_sigs _ Hc') in Hidx. congruence.
    - intros (nn & Hnn & <-). destruct (Hall p nn Hnn) as (i' & Hi' & Hidx). congruence. }
  split; [|split].
  - rewrite map_map. simpl. apply map_id.
  - intros sig ps. rewrite sdict_get_tabulate. case_decide as Hin; [|discriminate].
    intros [= <-]. split; [|apply Hkey, Hin].
    unfold argwhere_eq. apply argwhere_from_spec.
  - intros p nn Hnn. destruct (Hall p nn Hnn) as (i & Hi & Hidx).
    assert (Hin : str (Graph_init nn) ∈ sigs lib).
    { apply list_elem_of_lookup. exists i. apply (lc_index_sigs _ Hc'). exact Hidx. }
    eexists. rewrite sdict_get_tabulate, decide_True by exact Hin. split; [reflexivity|].
    apply (Hkey _ Hin). eauto.
Qed.

End BuildFacts.

Section BuildClaims.
Import GraphLibrary LibraryBuild.

(** X9. When [build] returns on a well-formed, consistent library, the
    dict it returns has the signatures of the library as keys, in order;
    under each signature it lists, in increasing order, exactly the
    particles whose neighbourhood graph has that signature; so every
    particle is listed once, under its own signature. *)
Theorem build_lookup_partition (Graph_init : list (list Z) -> Graph)
        (self : t) (nns : list (list (list Z))) (lk : list (string * list nat)) :
  library_wf self -> library_consistent self ->
  res (build Graph_init self nns) = Ok lk ->
  map fst lk = sigs (st (build Graph_init self nns)) /\
  (forall sig ps, sdict_get sig lk = Some ps ->
     StronglySorted lt ps /\
     forall p, p ∈ ps <-> exists nn, nns !! p = Some nn /\ str (Graph_init nn) = sig) /\
  (forall p nn, nns !! p = Some nn ->
     exists ps, sdict_get (str (Graph_init nn)) lk = Some ps /\ p ∈ ps).
Proof. apply build_spec. Qed.

Lemma build_lookup_partition_witness :
  map fst [("2:2:[1, 1]", [0; 2]); ("1:0:[0]", [1])]
  = sigs (st (build degree_graph init three_neighborhoods)) /\
  (forall sig ps,
     sdict_get sig [("2:2:[1, 1]", [0; 2]); ("1:0:[0]", [1])] = Some ps ->
     StronglySorted lt ps /\
     forall p, p ∈ ps <-> exists nn, three_neighborhoods !! p = Some nn /\
                                     str (degree_graph nn) = sig) /\
  (forall p nn, three_neighborhoods !! p = Some nn ->
     exists ps, sdict_get (str (degree_graph nn)) [("2:2:[1, 1]", [0; 2]); ("1:0:[0]", [1])]
                = Some ps /\ p ∈ ps).
Proof.
  apply (build_lookup_partition degree_graph init three_neighborhoods).
  - apply wf_init.
  - apply consistent_init.
  - vm_compute. reflexivity.
Defined.

End BuildClaims.

(* ================================================================== *)
(** * Further properties: Snapshot                                     *)
(* ================================================================== *)

Section MapToFacts.
Import Snapshot.

Lemma assign_all_spec (idx : list nat) (v : nat) :
  forall (m : list (option nat)),
    Forall (fun p => p < length m) idx ->
    exists m', assign_all m idx v = Ok m' /\ length m' = length m /\
               forall p, m' !! p = if decide (p ∈ idx /\ p < length m)
                                   then Some (Some v) else m !! p.
Proof.
  induction idx as [|q idx IH]; intros m Hall; cbn [assign_all].
  - exists m. split; [reflexivity|]. split; [reflexivity|]. intros p.
    rewrite decide_False by (intros [H _]; inversion H). reflexivity.
  - inversion Hall as [|? ? Hq Hall']; subst. rewrite decide_True by exact Hq.
    destruct (IH (<[q := Some v]> m)) as (m' & Hm' & Hlen & Hget).
    { rewrite length_insert. exact Hall'. }
    rewrite length_insert in Hlen, Hget.
    exists m'. split; [exact Hm'|]. split; [exact Hlen|]. intros p. rewrite Hget.
    destruct (decide (p ∈ idx /\ p < length m)) as [[Hin Hlt]|Hn].
    + rewrite decide_True by (rewrite elem_of_cons; tauto). reflexivity.
    + destruct (decide (p = q)) as [->|Hne].
      * rewrite decide_True by (rewrite elem_of_cons; tauto).
        apply list_lookup_insert_eq. exact Hq.
      * rewrite decide_False by (rewrite elem_of_cons; tauto).
        apply list_lookup_insert_ne. congruence.
Qed.

(** The loop of [mapTo] over a dict whose lists are inside the array and
    pairwise disjoint. *)
Lemma map_items_spec (lib : GraphLibrary.t) (items : list (string * list nat)) :
  forall (m : list (option nat)),
    Forall (fun it => Forall (fun p => p < length m) it.2) items ->
    (forall i j a b p, i <> j -> items !! i = Some a -> items !! j = Some b ->
                       p ∈ a.2 -> p ∈ b.2 -> False) ->
    exists m', map_items lib m items = Ok m' /\ length m' = length m /\
      (forall it p, it ∈ items -> p ∈ it.2 ->
                    m' !! p = match GraphLibrary.index lib !! it.1 with
                              | Some i => Some (Some i)
                              | None => m !! p
                              end) /\
      (forall p, (forall it, it ∈ items -> p ∉ it.2) -> m' !! p = m !! p).
Proof.
  induction items as [|[sig idx] rest IH]; intros m Hall Hdisj; simpl.
  - exists m. split; [reflexivity|]. split; [reflexivity|].
    split; [intros it p H; inversion H | reflexivity].
  - inversion Hall as [|? ? Hidx Hall']; subst. simpl in Hidx.
    assert (Hdisj' : forall i j a b p, i <> j -> rest !! i = Some a -> rest !! j = Some b ->
                                       p ∈ a.2 -> p ∈ b.2 -> False).
    { intros i j a b p Hij Ha Hb. apply (Hdisj (S i) (S j) a b p); [lia | exact Ha | exact Hb]. }
    assert (Hhead : forall it p, it ∈ rest -> p ∈ idx -> p ∉ it.2).
    { intros it p Hit Hp Hp'. apply list_elem_of_lookup in Hit. destruct Hit as [j Hj].
      apply (Hdisj 0 (S j) (sig, idx) it p); [lia | reflexivity | exact Hj | exact Hp | exact Hp']. }
    destruct (GraphLibrary.index lib !! sig) as [i|] eqn:Hi.
    + destruct (assign_all_spec idx i m Hidx) as (m1 & -> & Hlen1 & Hget1). cbn [rbind].
      destruct (IH m1) as (m' & Hm' & Hlen' & Hin' & Hout'); [|exact Hdisj'|].
      { rewrite Hlen1. exact Hall'. }
      exists m'. split; [exact Hm'|]. split; [congruence|]. split.
      * intros it p Hit Hp. apply elem_of_cons in Hit. destruct Hit as [->|Hit].
        -- simpl in *. rewrite Hi. rewrite Hout' by (intros it Hit; apply Hhead; assumption).
           rewrite Hget1. rewrite decide_True; [reflexivity|].
           split; [exact Hp|]. apply (proj1 (Forall_forall _ _) Hidx). exact Hp.
        -- rewrite (Hin' it p Hit Hp). destruct (GraphLibrary.index lib !! it.1); [reflexivity|].
           rewrite Hget1. rewrite decide_False; [reflexivity|].
           intros [Hp' _]. exact (Hhead it p Hit Hp' Hp).
      * intros p Hp. rewrite Hout' by (intros it Hit; apply Hp, elem_of_cons; tauto).
        rewrite Hget1. rewrite decide_False; [reflexivity|].
        intros [Hp' _]. apply (Hp (sig, idx)); [apply elem_of_cons; tauto | exact Hp'].
    + destruct (IH m Hall' Hdisj') as (m' & Hm' & Hlen' & Hin' & Hout').
      exists m'. split; [exact Hm'|]. split; [exact Hlen'|]. split.
      * intros it p Hit Hp. apply elem_of_cons in Hit. destruct Hit as [->|Hit].
        -- simpl in *. rewrite Hi. apply Hout'. intros it Hit. apply Hhead; assumption.
        -- apply Hin'; assumption.
      * intros p Hp. apply Hout'. intros it Hit. apply Hp, elem_of_cons. tauto.
Qed.

Lemma sdict_get_lookup {V} (d : list (string * V)) (k : string) (v : V) :
  sdict_get k d = Some v -> (k, v) ∈ d.
Proof.
  induction d as [|[k' v'] d IH]; simpl; [discriminate|].
  destruct (decide (k = k')) as [->|Hne].
  - intros [= ->]. apply elem_of_cons. tauto.
  - intros H. apply elem_of_cons. right. apply IH, H.
Qed.

Lemma sdict_lookup_get {V} (d : list (string * V)) (k : string) (v : V) :
  NoDup (map fst d) -> (k, v) ∈ d -> sdict_get k d = Some v.
Proof.
  induction d as [|[k' v'] d IH]; simpl; intros Hnd Hin; [inversion Hin|].
  apply NoDup_cons in Hnd. destruct Hnd as [Hk' Hnd].
  apply elem_of_cons in Hin. destruct Hin as [[= -> ->]|Hin].
  - rewrite decide_True by reflexivity. reflexivity.
  - destruct (decide (k = k')) as [->|Hne]; [|apply IH; assumption].
    exfalso. apply Hk'. apply list_elem_of_fmap. exists (k', v). auto.
Qed.

End MapToFacts.

Section SnapshotStageFacts.
Import Snapshot.
Variable Graph_init : list (list Z) -> Graph.
Variable getNeighbors : t -> result (list (list nat)).
Variable getAdjacency : t -> result (list (list (list Z))).

(** What [buildLibrary] leaves when it returns. *)
Lemma buildLibrary_spec (self : t) :
  res (buildLibrary Graph_init getNeighbors getAdjacency self) = Ok tt ->
  exists a lk,
    adjacency (st (buildLibrary Graph_init getNeighbors getAdjacency self)) = Some a /\
    N (st (buildLibrary Graph_init getNeighbors getAdjacency self)) = N self /\
    res (LibraryBuild.build Graph_init GraphLibrary.init a) = Ok lk /\
    library (st (buildLibrary Graph_init getNeighbors getAdjacency self))
    = Some (st (LibraryBuild.build Graph_init GraphLibrary.init a)) /\
    lookup (st (buildLibrary Graph_init getNeighbors getAdjacency self)) = Some lk /\
    (forall a0, adjacency self = Some a0 -> a = a0).
Proof.
  unfold buildLibrary.
  set (self0 := set_library self (Some GraphLibrary.init)).
  assert (HN : N (st (ensure_adjacency getNeighbors getAdjacency self0)) = N self /\
               forall a0, adjacency self = Some a0 ->
                          adjacency (st (ensure_adjacency getNeighbors getAdjacency self0)) = Some a0).
  { unfold ensure_adjacency. subst self0. cbn [adjacency neighbors set_library].
    destruct (adjacency self) as [a0|] eqn:Ha.
    - cbn [st]. split; [reflexivity|]. intros ? [= <-]. exact Ha.
    - split; [|discriminate].
      destruct (neighbors self) as [nb|]; cbn [res st].
      + unfold buildAdjacency. destruct (getAdjacency _); reflexivity.
      + unfold buildNeighborhoods. destruct (getNeighbors _) as [nb|e]; cbn [res st]; [|reflexivity].
        unfold buildAdjacency. destruct (getAdjacency _); reflexivity. }
  destruct HN as [HN Hadj].
  destruct (res (ensure_adjacency getNeighbors getAdjacency self0)) as [[]|e] eqn:Hre;
    [|rewrite Hre; discriminate].
  destruct (adjacency (st (ensure_adjacency getNeighbors getAdjacency self0))) as [a|] eqn:Ha;
    [|discriminate].
  destruct (res (LibraryBuild.build Graph_init GraphLibrary.init a)) as [lk|e] eqn:Hb;
    [|discriminate].
  intros _. exists a, lk. cbn [st adjacency N library lookup set_lookup set_library].
  split; [exact Ha|]. split; [exact HN|]. split; [exact Hb|].
  split; [reflexivity|]. split; [reflexivity|].
  intros a0 Ha0. specialize (Hadj a0 Ha0). congruence.
Qed.

(** X10. After [buildLibrary] has returned on a snapshot whose particle
    count is the number of neighbourhoods, [mapTo] against any library
    returns one entry per particle: the index that library has for the
    signature of the particle's graph, or NaN when it has none; against the
    snapshot's own library no entry is NaN. *)
Theorem mapTo_after_buildLibrary (self : t) (target : GraphLibrary.t)
        (a : list (list (list Z))) :
  res (buildLibrary Graph_init getNeighbors getAdjacency self) = Ok tt ->
  adjacency (st (buildLibrary Graph_init getNeighbors getAdjacency self)) = Some a ->
  N self = Some (length a) ->
  (exists m,
      mapTo (st (buildLibrary Graph_init getNeighbors getAdjacency self)) (Inst target) = Ok m /\
      length m = length a /\
      forall p nn, a !! p = Some nn ->
                   m !! p = Some (GraphLibrary.index target !! str (Graph_init nn))) /\
  (exists own m,
      library (st (buildLibrary Graph_init getNeighbors getAdjacency self)) = Some own /\
      mapTo (st (buildLibrary Graph_init getNeighbors getAdjacency self)) (Inst own) = Ok m /\
      forall p, p < length a -> exists i, m !! p = Some (Some i)).
Proof.
  intros Hok Ha HN.
  destruct (buildLibrary_spec self Hok) as (a' & lk & Ha' & HN' & Hb & Hlib & Hlk & _).
  rewrite Ha in Ha'. injection Ha' as <-.
  destruct (build_spec Graph_init GraphLibrary.init a lk wf_init consistent_init Hb)
    as (Hkeys & Hpart & Hcover).
  assert (Hnd : NoDup (map fst lk)).
  { rewrite Hkeys. apply consistent_NoDup.
    pose proof (build_index_spec Graph_init a GraphLibrary.init []) as Hspec.
    unfold LibraryBuild.build in Hb |- *.
    destruct (res (LibraryBuild.build_index Graph_init GraphLibrary.init [] a)) as [l|e] eqn:Hr;
      [|discriminate].
    cbn [st]. apply (Hspec l wf_init consistent_init eq_refl). }
  assert (Hitems : forall lib, exists m,
             map_items lib (replicate (length a) None) lk = Ok m /\ length m = length a /\
             forall p nn, a !! p = Some nn ->
                          m !! p = Some (GraphLibrary.index lib !! str (Graph_init nn))).
  { intros lib.
    destruct (map_items_spec lib lk (replicate (length a) None)) as (m & Hm & Hlen & Hin & _).
    - apply Forall_forall. intros [sig ps] Hit. simpl. apply Forall_forall. intros p Hp.
      rewrite length_replicate.
      apply (sdict_lookup_get lk sig ps Hnd) in Hit.
      apply (Hpart sig ps Hit) in Hp. destruct Hp as (nn & Hnn & _).
      eapply lookup_lt_Some; eauto.
    - intros i j [s1 p1] [s2 p2] p Hij H1 H2 Hp1 Hp2. simpl in *.
      assert (s1 = s2).
      { apply list_elem_of_lookup_2 in H1 as Hin1. apply list_elem_of_lookup_2 in H2 as Hin2.
        apply (sdict_lookup_get lk s1 p1 Hnd) in Hin1.
        apply (sdict_lookup_get lk s2 p2 Hnd) in Hin2.
        apply (Hpart s1 p1 Hin1) in Hp1. apply (Hpart s2 p2 Hin2) in Hp2.
        destruct Hp1 as (nn1 & Hn1 & <-), Hp2 as (nn2 & Hn2 & <-). congruence. }
      subst s2. apply Hij.
      apply (NoDup_lookup (map fst lk) i j s1 Hnd).
      + change (map fst lk) with (fst <$> lk). rewrite list_lookup_fmap, H1. reflexivity.
      + change (map fst lk) with (fst <$> lk). rewrite list_lookup_fmap, H2. reflexivity.
    - exists m. split; [exact Hm|]. split; [rewrite Hlen; apply length_replicate|].
      intros p nn Hnn. destruct (Hcover p nn Hnn) as (ps & Hps & Hp).
      rewrite (Hin (str (Graph_init nn), ps) p (sdict_get_lookup _ _ _ Hps) Hp). simpl.
      destruct (GraphLibrary.index lib !! str (Graph_init nn)); [reflexivity|].
      apply lookup_replicate_2. eapply lookup_lt_Some; eauto. }
  unfold mapTo. rewrite HN', HN, Hlk, Hlib. split.
  - apply Hitems.
  - destruct (Hitems (st (LibraryBuild.build Graph_init GraphLibrary.init a))) as (m & Hm & Hlen & Hget).
    eexists _, m. split; [reflexivity|]. split; [exact Hm|].
    intros p Hp. destruct (lookup_lt_is_Some_2 a p Hp) as [nn Hnn].
    rewrite (Hget p nn Hnn).
    destruct (Hcover p nn Hnn) as (ps & Hps & _).
    assert (Hin : str (Graph_init nn) ∈ map fst lk).
    { apply list_elem_of_fmap. exists (str (Graph_init nn), ps).
      split; [reflexivity | apply sdict_get_lookup; exact Hps]. }
    rewrite Hkeys in Hin. apply list_elem_of_lookup in Hin. destruct Hin as [i Hi].
    assert (Hc : library_consistent (st (LibraryBuild.build Graph_init GraphLibrary.init a))).
    { pose proof (build_index_spec Graph_init a GraphLibrary.init []) as Hspec.
      unfold LibraryBuild.build in Hb |- *.
      destruct (res (LibraryBuild.build_index Graph_init GraphLibrary.init [] a)) as [l|e] eqn:Hr;
        [|discriminate].
      cbn [st]. apply (Hspec l wf_init consistent_init eq_refl). }
    apply (lc_index_sigs _ Hc) in Hi. rewrite Hi. eauto.
Qed.

End SnapshotStageFacts.

Lemma mapTo_after_buildLibrary_witness :
  (exists m,
      Snapshot.mapTo (st (Snapshot.buildLibrary degree_graph no_neighbors no_adjacency
                                                three_particles))
                     (Inst one_graph_library) = Ok m /\
      length m = length three_neighborhoods /\
      forall p nn, three_neighborhoods !! p = Some nn ->
                   m !! p = Some (GraphLibrary.index one_graph_library !! str (degree_graph nn))) /\
  (exists own m,
      Snapshot.library (st (Snapshot.buildLibrary degree_graph no_neighbors no_adjacency
                                                  three_particles)) = Some own /\
      Snapshot.mapTo (st (Snapshot.buildLibrary degree_graph no_neighbors no_adjacency
                                                three_particles))
                     (Inst own) = Ok m /\
      forall p, p < length three_neighborhoods -> exists i, m !! p = Some (Some i)).
Proof.
  apply (mapTo_after_buildLibrary degree_graph no_neighbors no_adjacency three_particles
                                  one_graph_library three_neighborhoods).
  - vm_compute. reflexivity.
  - vm_compute. reflexivity.
  - reflexivity.
Defined.

Section WrapFacts.
Import Snapshot.
Local Open Scope Q_scope.

Lemma np_round_comp (q q' : Q) : q == q' -> np_round q = np_round q'.
Proof.
  intros H. unfold np_round. rewrite (Qfloor_comp _ _ H).
  assert (Hc : (q - inject_Z (Qfloor q') ?= 1 # 2) = (q' - inject_Z (Qfloor q') ?= 1 # 2))
    by (rewrite H; reflexivity).
  rewrite Hc. reflexivity.
Qed.






Lemma wrap_axis_comp (v v' l : Q) (b : bool) :
  v == v' -> wrap_axis v l b == wrap_axis v' l b.
Proof.
  intros H. unfold wrap_axis.
  rewrite (np_round_comp (v / l * (if b then 1 else 0)) (v' / l * (if b then 1 else 0)))
    by (rewrite H; reflexivity).
  rewrite H. reflexivity.
Qed.




End WrapFacts.

Section SaveLoadFacts.
Import Snapshot.

(** X12. [load] of what [save] pickled, on any snapshot: when it returns,
    each stage that was selected is the saved one and each other
    attribute is untouched; the particle count is that of the saved
    adjacency, else of the saved neighbours, else untouched; it raises
    only with TypeError, and only when a selected neighbour or adjacency
    stage had never been built (so that [None] was pickled). *)
Theorem save_load_roundtrip (self s0 : t) (want_neighbors want_adjacency want_library : bool) :
  match load s0 (save self want_neighbors want_adjacency want_library) with
  | (s', Ok _) =>
      neighbors s' = (if want_neighbors then neighbors self else neighbors s0) /\
      adjacency s' = (if want_adjacency then adjacency self else adjacency s0) /\
      library s' = (if want_library then library self else library s0) /\
      lookup s' = (if want_library then lookup self else lookup s0) /\
      N s' = match (if want_adjacency then adjacency self else None),
                   (if want_neighbors then neighbors self else None) with
             | Some a, _ => Some (length a)
             | None, Some nb => Some (length nb)
             | None, None => N s0
             end /\
      L s' = L s0 /\ pbc s' = pbc s0
  | (s', Raise e) =>
      e = TypeError /\
      ((want_neighbors = true /\ neighbors self = None)
       \/ (want_adjacency = true /\ adjacency self = None))
  end.
Proof.
  unfold load, save, load_neighbors, load_adjacency, load_library.
  destruct want_neighbors, want_adjacency, want_library;
    destruct (neighbors self), (adjacency self); cbn;
    repeat split; auto.
Qed.

End SaveLoadFacts.

(* ================================================================== *)
(** * Further properties: color.rankOrderTransform                     *)
(* ================================================================== *)

Section RankFacts.
Import Color.
Local Open Scope Q_scope.

Lemma insert_unique_mem (x y : Q) (l : list Q) :
  Exists (fun z => z == y) (insert_unique x l) <-> x == y \/ Exists (fun z => z == y) l.
Proof.
  induction l as [|a l IH]; simpl.
  - rewrite Exists_cons, Exists_nil. tauto.
  - destruct (x ?= a) eqn:Hc.
    + apply Qeq_alt in Hc. rewrite Exists_cons. split; [tauto|].
      intros [H|H]; [left; rewrite <- Hc; exact H | exact H].
    + rewrite !Exists_cons. tauto.
    + rewrite !Exists_cons, IH. tauto.
Qed.

Lemma insert_unique_sorted (x : Q) (l : list Q) :
  StronglySorted Qlt l -> StronglySorted Qlt (insert_unique x l).
Proof.
  induction 1 as [|a l Hs IH Ha]; simpl.
  - repeat constructor.
  - destruct (x ?= a) eqn:Hc.
    + constructor; assumption.
    + apply Qlt_alt in Hc. constructor; [constructor; assumption|].
      constructor; [exact Hc|]. eapply Forall_impl; [exact Ha|].
      intros z Hz. simpl in Hz. lra.
    + apply Qgt_alt in Hc. constructor; [exact IH|].
      apply Forall_forall. intros z Hz.
      assert (He : Exists (fun w => w == z) (insert_unique x l)).
      { apply Exists_exists. exists z. split; [exact Hz | reflexivity]. }
      apply insert_unique_mem in He. destruct He as [He|He].
      * lra.
      * apply Exists_exists in He. destruct He as (w & Hw & Hwz).
        pose proof (proj1 (Forall_forall _ _) Ha w Hw) as Haw. simpl in Haw. lra.
Qed.

(** [np.unique] returns the distinct values in increasing order. *)
Lemma np_unique_spec (vals : list Q) : distinct_sorted vals (np_unique vals).
Proof.
  unfold distinct_sorted, np_unique. induction vals as [|x vals [IHs IHm]]; simpl.
  - split; [constructor | tauto].
  - split; [apply insert_unique_sorted, IHs|].
    intros y. rewrite insert_unique_mem, Exists_cons, IHm. tauto.
Qed.

Lemma interp_at_cons (x x0 x1 f0 f1 : Q) (xp fp : list Q) :
  interp_at x (x0 :: x1 :: xp) (f0 :: f1 :: fp) =
  match x ?= x1 with
  | Lt => match x ?= x0 with
          | Gt => (f1 - f0) / (x1 - x0) * (x - x0) + f0
          | _ => f0
          end
  | _ => interp_at x (x1 :: xp) (f1 :: fp)
  end.
Proof. reflexivity. Qed.

(** On a sample point [np.interp] returns the sample value. *)
Lemma interp_at_sample (s : list Q) :
  forall (fp : list Q) (k : nat) (sk f x : Q),
    StronglySorted Qlt s ->
    s !! k = Some sk -> fp !! k = Some f -> x == sk ->
    length fp = length s ->
    interp_at x s fp = f.
Proof.
  induction s as [|x0 s IH]; intros fp k sk f x Hs Hk Hf Hx Hlen; [inversion Hk|].
  destruct fp as [|f0 fp]; [inversion Hf|].
  apply StronglySorted_inv in Hs. destruct Hs as [Hs Hx0].
  injection Hlen as Hlen.
  destruct k as [|k]; simpl in Hk, Hf.
  - injection Hk as <-. injection Hf as <-.
    destruct s as [|x1 s]; destruct fp as [|f1 fp]; try discriminate; [reflexivity|].
    rewrite interp_at_cons.
    assert (Hlt : x < x1) by (inversion Hx0; subst; lra).
    apply (proj1 (Qlt_alt _ _)) in Hlt. rewrite Hlt.
    apply (proj1 (Qeq_alt _ _)) in Hx. rewrite Hx. reflexivity.
  - destruct s as [|x1 s]; [inversion Hk|]. destruct fp as [|f1 fp]; [inversion Hf|].
    rewrite interp_at_cons.
    assert (Hge : x1 <= x).
    { destruct k as [|k]; simpl in Hk.
      - injection Hk as <-. lra.
      - apply StronglySorted_inv in Hs. destruct Hs as [_ Hx1].
        apply list_elem_of_lookup_2 in Hk.
        pose proof (proj1 (Forall_forall _ _) Hx1 sk Hk). lra. }
    destruct (x ?= x1) eqn:Hc.
    + exact (IH (f1 :: fp) k sk f x Hs Hk Hf Hx Hlen).
    + apply Qlt_alt in Hc. lra.
    + exact (IH (f1 :: fp) k sk f x Hs Hk Hf Hx Hlen).
Qed.

Lemma np_linspace01_lookup (n k : nat) :
  (k < n)%nat -> np_linspace01 n !! k = Some (rank_coord k n).
Proof.
  intros Hk. unfold np_linspace01. to_fmap.
  rewrite list_lookup_fmap, lookup_seq_lt by exact Hk. reflexivity.
Qed.

Lemma np_linspace01_length (n : nat) : length (np_linspace01 n) = n.
Proof. unfold np_linspace01. rewrite length_map, length_seq. reflexivity. Qed.

Lemma non_nan_mem (r : list fl) (p : nat) (q : Q) :
  r !! p = Some (Num q) -> Exists (fun z => z == q) (non_nan r).
Proof.
  revert p. induction r as [|x r IH]; intros p Hp; [inversion Hp|].
  destruct p as [|p]; simpl in Hp.
  - injection Hp as ->. simpl. apply Exists_cons. left. reflexivity.
  - destruct x; simpl; [eapply IH; eauto | apply Exists_cons; right; eapply IH; eauto].
Qed.

(** One column: lines 63-66. *)
Lemma transform_column_spec (r out : list fl) :
  transform_column r = Ok out ->
  length out = length r /\
  forall p x, r !! p = Some x ->
    match x with
    | NaN => out !! p = Some NaN
    | Num q => exists k, rank_of (np_unique (non_nan r)) q k /\
                         out !! p = Some (Num (rank_coord k (length (np_unique (non_nan r)))))
    end.
Proof.
  unfold transform_column, np_interp.
  destruct (np_unique_spec (non_nan r)) as [Hs Hm].
  set (s := np_unique (non_nan r)) in *.
  destruct s as [|s0 s'] eqn:Es; [discriminate|]. rewrite <- Es in *.
  rewrite decide_True by apply np_linspace01_length.
  intros [= <-]. split; [apply length_map|].
  intros p x Hp. to_fmap. rewrite list_lookup_fmap, Hp. simpl.
  destruct x as [|q]; [reflexivity|].
  assert (He : Exists (fun z => z == q) s) by (apply Hm; eapply non_nan_mem; eauto).
  apply Exists_exists in He. destruct He as (sk & Hsk & Hq).
  apply list_elem_of_lookup in Hsk. destruct Hsk as [k Hk].
  exists k. split; [exists sk; auto|].
  f_equal. f_equal.
  apply (interp_at_sample s (np_linspace01 (length s)) k sk _ q Hs Hk).
  - apply np_linspace01_lookup. eapply lookup_lt_Some; eauto.
  - symmetry. exact Hq.
  - apply np_linspace01_length.
Qed.

Lemma mapM_Forall2 {A B} (f : A -> result B) (l : list A) (out : list B) :
  mapM f l = Ok out -> Forall2 (fun a b => f a = Ok b) l out.
Proof.
  revert out. induction l as [|a l IH]; intros out; simpl.
  - intros [= <-]. constructor.
  - destruct (f a) as [b|] eqn:Hb; simpl; [|discriminate].
    destruct (mapM f l) as [bs|]; simpl; [|discriminate].
    intros [= <-]. constructor; [exact Hb | apply IH; reflexivity].
Qed.

(** The whole transform, cell by cell. *)
Lemma rank_transform_spec (R C : ndarray) :
  Forall (fun c => length c = nrow R) (cols R) ->
  rankOrderTransform R = Ok C ->
  nrow C = nrow R /\
  length (cols C) = length (cols R) /\
  forall i p col x lastc xl,
    cols R !! i = Some col -> col !! p = Some x ->
    last (cols R) = Some lastc -> lastc !! p = Some xl ->
    exists ccol y,
      cols C !! i = Some ccol /\ ccol !! p = Some y /\
      match xl, x with
      | NaN, _ => y = Num 1
      | Num _, NaN => y = NaN
      | Num _, Num q =>
          exists k, rank_of (np_unique (non_nan col)) q k /\
                    y = Num (rank_coord k (length (np_unique (non_nan col))))
      end.
Proof.
  intros Hrect. unfold rankOrderTransform.
  destruct (mapM transform_column (cols R)) as [coords|] eqn:Hm; [|discriminate].
  apply mapM_Forall2 in Hm. cbn [rbind].
  destruct (last coords) as [c_last|] eqn:Hlast; [|discriminate].
  intros [= <-]. cbn [nrow cols]. split; [reflexivity|].
  split; [rewrite length_map; symmetry; eapply Forall2_length; eauto|].
  intros i p col x lastc xl Hcol Hx HlastR Hxl.
  destruct (Forall2_lookup_l _ _ _ i col Hm Hcol) as (out & Hout & Ht).
  destruct (transform_column_spec col out Ht) as [Hlen Hcells].
  assert (Hlast' : transform_column lastc = Ok c_last).
  { rewrite last_lookup in HlastR, Hlast.
    destruct (Forall2_lookup_l _ _ _ _ lastc Hm HlastR) as (o & Ho & Hto).
    rewrite (Forall2_length _ _ _ Hm) in Ho. congruence. }
  destruct (transform_column_spec lastc c_last Hlast') as [Hlenl Hcellsl].
  assert (Hnan : (map isnan c_last) !! p = Some (isnan xl)).
  { to_fmap. rewrite list_lookup_fmap. specialize (Hcellsl p xl Hxl).
    destruct xl; [rewrite Hcellsl; reflexivity|].
    destruct Hcellsl as (k & _ & ->). reflexivity. }
  specialize (Hcells p x Hx).
  assert (Hy : exists y0, out !! p = Some y0).
  { apply lookup_lt_is_Some_2. rewrite Hlen. eapply lookup_lt_Some; eauto. }
  destruct Hy as [y0 Hy0].
  exists (fill_rows (map isnan c_last) out), (if isnan xl then Num 1 else y0).
  split; [to_fmap; rewrite list_lookup_fmap, Hout; reflexivity|].
  split.
  - unfold fill_rows. rewrite lookup_zip_with, Hnan. simpl. rewrite Hy0. reflexivity.
  - destruct xl; simpl; [reflexivity|].
    destruct x; [congruence|].
    destruct Hcells as (k & Hk & Hk'). exists k. split; [exact Hk | congruence].
Qed.

Lemma rank_transform_shape (R C : ndarray) :
  Forall (fun c => length c = nrow R) (cols R) ->
  rankOrderTransform R = Ok C ->
  Forall (fun c => length c = nrow R) (cols C).
Proof.
  intros Hrect. unfold rankOrderTransform.
  destruct (mapM transform_column (cols R)) as [coords|] eqn:Hm; [|discriminate].
  apply mapM_Forall2 in Hm. cbn [rbind].
  destruct (last coords) as [c_last|] eqn:Hlast; [|discriminate].
  intros [= <-]. cbn [nrow cols].
  assert (Hcoords : Forall (fun c => length c = nrow R) coords).
  { apply Forall_forall. intros out Hout.
    apply list_elem_of_lookup in Hout. destruct Hout as [i Hi].
    destruct (Forall2_lookup_r _ _ _ i out Hm Hi) as (col & Hcol & Ht).
    apply transform_column_spec in Ht. destruct Ht as [-> _].
    apply (proj1 (Forall_forall _ _) Hrect col).
    eapply list_elem_of_lookup_2; eauto. }
  assert (Hl : length c_last = nrow R).
  { rewrite last_lookup in Hlast. apply list_elem_of_lookup_2 in Hlast.
    apply (proj1 (Forall_forall _ _) Hcoords c_last Hlast). }
  apply Forall_forall. intros c Hc. to_fmap.
  apply list_elem_of_fmap in Hc. destruct Hc as (out & -> & Hout).
  unfold fill_rows. rewrite length_zip_with, length_fmap, Hl.
  rewrite (proj1 (Forall_forall _ _) Hcoords out Hout). lia.
Qed.

Lemma rank_coord_range (k n : nat) :
  (k < n)%nat -> 0 <= rank_coord k n <= 1.
Proof.
  intros Hk. unfold rank_coord.
  destruct (decide (n - 1 = 0)%nat) as [Hz|Hz].
  - rewrite Hz. replace k with 0%nat by lia. split; discriminate.
  - assert (Hd : 0 < inject_Z (Z.of_nat (n - 1))).
    { change 0 with (inject_Z 0). rewrite <- Zlt_Qlt. lia. }
    split.
    + apply Qle_shift_div_l; [exact Hd|]. rewrite Qmult_0_l.
      change 0 with (inject_Z 0). rewrite <- Zle_Qle. lia.
    + apply Qle_shift_div_r; [exact Hd|]. rewrite Qmult_1_l.
      rewrite <- Zle_Qle. lia.
Qed.

Lemma rank_coord_lt (k1 k2 n : nat) :
  (k1 < k2)%nat -> (k2 < n)%nat -> rank_coord k1 n < rank_coord k2 n.
Proof.
  intros H1 H2. unfold rank_coord, Qdiv.
  assert (Hd : 0 < inject_Z (Z.of_nat (n - 1))).
  { change 0 with (inject_Z 0). rewrite <- Zlt_Qlt. lia. }
  apply Qmult_lt_compat_r; [apply Qinv_lt_0_compat, Hd|].
  rewrite <- Zlt_Qlt. lia.
Qed.

Lemma sorted_lookup_lt (s : list Q) :
  forall i j a b,
    StronglySorted Qlt s -> s !! i = Some a -> s !! j = Some b -> (i < j)%nat -> a < b.
Proof.
  induction s as [|x s IH]; intros i j a b Hs Hi Hj Hij; [inversion Hi|].
  apply StronglySorted_inv in Hs. destruct Hs as [Hs Hx].
  destruct j as [|j]; [lia|]. simpl in Hj.
  destruct i as [|i]; simpl in Hi.
  - injection Hi as <-. apply list_elem_of_lookup_2 in Hj.
    exact (proj1 (Forall_forall _ _) Hx b Hj).
  - apply (IH i j a b Hs Hi Hj). lia.
Qed.

(** Ranks follow the order of the values. *)
Lemma rank_of_order (s : list Q) (q1 q2 : Q) (k1 k2 : nat) :
  StronglySorted Qlt s -> rank_of s q1 k1 -> rank_of s q2 k2 ->
  (q1 < q2 -> (k1 < k2)%nat) /\ (q1 == q2 -> k1 = k2).
Proof.
  intros Hs (a & Ha & Haq) (b & Hb & Hbq).
  destruct (lt_eq_lt_dec k1 k2) as [[Hlt|Heq]|Hgt].
  - pose proof (sorted_lookup_lt s k1 k2 a b Hs Ha Hb Hlt).
    split; [auto | intros; lra].
  - subst k2. assert (a = b) by congruence. subst b.
    split; [intros; lra | auto].
  - pose proof (sorted_lookup_lt s k2 k1 b a Hs Hb Ha Hgt).
    split; intros; lra.
Qed.

(** X13. rankOrderTransform replaces every number by its rank: in a
    rectangular array on which the transform returns, the result has the
    shape of the input; a row whose last column holds NaN becomes 1
    throughout; in every other row a NaN stays NaN and a number q of
    column i becomes k/(n-1), where n is the number of distinct numbers
    of that column and k the position of q among them in increasing
    order. *)
Theorem rank_transform_cells (R C : ndarray) :
  Forall (fun c => length c = nrow R) (cols R) ->
  rankOrderTransform R = Ok C ->
  nrow C = nrow R /\
  length (cols C) = length (cols R) /\
  Forall (fun c => length c = nrow R) (cols C) /\
  forall i p col x lastc xl,
    cols R !! i = Some col -> col !! p = Some x ->
    last (cols R) = Some lastc -> lastc !! p = Some xl ->
    distinct_sorted (non_nan col) (np_unique (non_nan col)) /\
    exists ccol y,
      cols C !! i = Some ccol /\ ccol !! p = Some y /\
      match xl, x with
      | NaN, _ => y = Num 1
      | Num _, NaN => y = NaN
      | Num _, Num q =>
          exists k, rank_of (np_unique (non_nan col)) q k /\
                    y = Num (rank_coord k (length (np_unique (non_nan col))))
      end.
Proof.
  intros Hrect HC.
  destruct (rank_transform_spec R C Hrect HC) as (H1 & H2 & H3).
  split; [exact H1|]. split; [exact H2|].
  split; [exact (rank_transform_shape R C Hrect HC)|].
  intros i p col x lastc xl Hcol Hx Hlast Hxl.
  split; [apply np_unique_spec|]. eapply H3; eauto.
Qed.

Lemma rank_transform_cells_witness :
  nrow ranked_result = nrow ranked_sample /\
  length (cols ranked_result) = length (cols ranked_sample) /\
  Forall (fun c => length c = nrow ranked_sample) (cols ranked_result) /\
  forall i p col x lastc xl,
    cols ranked_sample !! i = Some col -> col !! p = Some x ->
    last (cols ranked_sample) = Some lastc -> lastc !! p = Some xl ->
    distinct_sorted (non_nan col) (np_unique (non_nan col)) /\
    exists ccol y,
      cols ranked_result !! i = Some ccol /\ ccol !! p = Some y /\
      match xl, x with
      | NaN, _ => y = Num 1
      | Num _, NaN => y = NaN
      | Num _, Num q =>
          exists k, rank_of (np_unique (non_nan col)) q k /\
                    y = Num (rank_coord k (length (np_unique (non_nan col))))
      end.
Proof.
  apply (rank_transform_cells ranked_sample ranked_result).
  - repeat constructor.
  - vm_compute. reflexivity.
Defined.

(** X14. The coordinates rankOrderTransform returns lie in [0,1] or are
    NaN, the last column holds no NaN, and among the rows whose last
    entry is a number each column keeps the order of its values: a
    smaller number gets a smaller coordinate and equal numbers get the
    same one. *)
Theorem rank_transform_range (R C : ndarray) :
  Forall (fun c => length c = nrow R) (cols R) ->
  rankOrderTransform R = Ok C ->
  (forall ccol y, ccol ∈ cols C -> y ∈ ccol ->
     match y with NaN => True | Num v => 0 <= v <= 1 end) /\
  (forall lastC, last (cols C) = Some lastC -> NaN ∉ lastC) /\
  (forall i col ccol lastc p1 p2 q1 q2 l1 l2 y1 y2,
     cols R !! i = Some col -> cols C !! i = Some ccol ->
     last (cols R) = Some lastc ->
     lastc !! p1 = Some (Num l1) -> lastc !! p2 = Some (Num l2) ->
     col !! p1 = Some (Num q1) -> col !! p2 = Some (Num q2) ->
     ccol !! p1 = Some y1 -> ccol !! p2 = Some y2 ->
     exists v1 v2, y1 = Num v1 /\ y2 = Num v2 /\
                   (q1 < q2 -> v1 < v2) /\ (q1 == q2 -> v1 = v2)).
Proof.
  intros Hrect HC.
  destruct (rank_transform_spec R C Hrect HC) as (Hn & Hlen & Hcells).
  pose proof (rank_transform_shape R C Hrect HC) as Hshape.
  assert (Hback : forall i ccol p y,
             cols C !! i = Some ccol -> ccol !! p = Some y ->
             exists col x lastc xl,
               cols R !! i = Some col /\ col !! p = Some x /\
               last (cols R) = Some lastc /\ lastc !! p = Some xl).
  { intros i ccol p y Hi Hp.
    assert (Hlc : length ccol = nrow R).
    { apply (proj1 (Forall_forall _ _) Hshape ccol).
      eapply list_elem_of_lookup_2; eauto. }
    destruct (lookup_lt_is_Some_2 (cols R) i) as [col Hcol].
    { rewrite <- Hlen. eapply lookup_lt_Some; eauto. }
    assert (Hl : length col = nrow R).
    { apply (proj1 (Forall_forall _ _) Hrect col).
      eapply list_elem_of_lookup_2; eauto. }
    destruct (lookup_lt_is_Some_2 col p) as [x Hx].
    { rewrite Hl, <- Hlc. eapply lookup_lt_Some; eauto. }
    destruct (last (cols R)) as [lastc|] eqn:Hlast.
    2:{ apply last_None in Hlast. rewrite Hlast in Hcol. inversion Hcol. }
    assert (Hll : length lastc = nrow R).
    { apply (proj1 (Forall_forall _ _) Hrect lastc).
      rewrite last_lookup in Hlast. eapply list_elem_of_lookup_2; eauto. }
    destruct (lookup_lt_is_Some_2 lastc p) as [xl Hxl].
    { rewrite Hll, <- Hlc. eapply lookup_lt_Some; eauto. }
    exists col, x, lastc, xl. auto. }
  split; [|split].
  - intros ccol y Hccol Hy.
    apply list_elem_of_lookup in Hccol. destruct Hccol as [i Hi].
    apply list_elem_of_lookup in Hy. destruct Hy as [p Hp].
    destruct (Hback i ccol p y Hi Hp) as (col & x & lastc & xl & Hcol & Hx & Hlast & Hxl).
    destruct (Hcells i p col x lastc xl Hcol Hx Hlast Hxl) as (ccol' & y' & Hi' & Hp' & Hy').
    assert (ccol' = ccol) by congruence. subst ccol'.
    assert (y' = y) by congruence. subst y'.
    destruct xl; [subst y; split; discriminate|].
    destruct x; [subst y; exact I|].
    destruct Hy' as (k & (sk & Hk & _) & ->).
    apply rank_coord_range. eapply lookup_lt_Some; eauto.
  - intros lastC HlastC Hnan.
    apply list_elem_of_lookup in Hnan. destruct Hnan as [p Hp].
    rewrite last_lookup in HlastC.
    destruct (Hback _ lastC p NaN HlastC Hp) as (col & x & lastc & xl & Hcol & Hx & Hlast & Hxl).
    assert (Hcl : col = lastc).
    { rewrite last_lookup, <- Hlen in Hlast. congruence. }
    subst col. assert (x = xl) by congruence. subst x.
    destruct (Hcells _ p lastc xl lastc xl Hcol Hx Hlast Hxl) as (ccol' & y' & Hi' & Hp' & Hy').
    assert (ccol' = lastC) by congruence. subst ccol'.
    assert (y' = NaN) by congruence. subst y'.
    destruct xl; [discriminate|]. destruct Hy' as (k & _ & Hk). discriminate.
  - intros i col ccol lastc p1 p2 q1 q2 l1 l2 y1 y2 Hcol Hccol Hlast Hl1 Hl2 Hq1 Hq2 Hy1 Hy2.
    destruct (Hcells i p1 col _ lastc _ Hcol Hq1 Hlast Hl1) as (c1 & z1 & Hc1 & Hz1 & k1 & Hk1 & ->).
    destruct (Hcells i p2 col _ lastc _ Hcol Hq2 Hlast Hl2) as (c2 & z2 & Hc2 & Hz2 & k2 & Hk2 & ->).
    assert (c1 = ccol) by congruence. assert (c2 = ccol) by congruence. subst c1 c2.
    rewrite Hz1 in Hy1. rewrite Hz2 in Hy2.
    injection Hy1 as <-. injection Hy2 as <-.
    eexists _, _. split; [reflexivity|]. split; [reflexivity|].
    destruct (np_unique_spec (non_nan col)) as [Hs _].
    destruct (rank_of_order _ q1 q2 k1 k2 Hs Hk1 Hk2) as [Hlt Heq].
    split.
    + intros Hq. apply rank_coord_lt; [auto|].
      destruct Hk2 as (sk & Hsk & _). eapply lookup_lt_Some; eauto.
    + intros Hq. rewrite (Heq Hq). reflexivity.
Qed.

Lemma rank_transform_range_witness :
  (forall ccol y, ccol ∈ cols ranked_result -> y ∈ ccol ->
     match y with NaN => True | Num v => 0 <= v <= 1 end) /\
  (forall lastC, last (cols ranked_result) = Some lastC -> NaN ∉ lastC) /\
  (forall i col ccol lastc p1 p2 q1 q2 l1 l2 y1 y2,
     cols ranked_sample !! i = Some col -> cols ranked_result !! i = Some ccol ->
     last (cols ranked_sample) = Some lastc ->
     lastc !! p1 = Some (Num l1) -> lastc !! p2 = Some (Num l2) ->
     col !! p1 = Some (Num q1) -> col !! p2 = Some (Num q2) ->
     ccol !! p1 = Some y1 -> ccol !! p2 = Some y2 ->
     exists v1 v2, y1 = Num v1 /\ y2 = Num v2 /\
                   (q1 < q2 -> v1 < v2) /\ (q1 == q2 -> v1 = v2)).
Proof.
  apply (rank_transform_range ranked_sample ranked_result).
  - repeat constructor.
  - vm_compute. reflexivity.
Defined.

End RankFacts.

(* ================================================================== *)
(** * Further properties: the Markov matrix of DMap                    *)
(* ================================================================== *)

Section StochasticFacts.
Import DMap.
Local Open Scope R_scope.











End StochasticFacts.

Section ComputeFrameFacts.
Import DMap.

Variable eig : matrix -> result (list (R * R) * list (list (R * R))).

(** X17. What compute writes: whatever the arguments and however the
    call ends, the object afterwards holds the given epsilon and dists,
    and every attribute other than epsilon, dists, evals and evecs is
    what it was; when the call raises, evals and evecs are what they were
    as well, and with None for epsilon it raises a type error. *)
Theorem compute_frame (self : obj) (d : matrix) (epsilon : value) :
  let r := compute eig d epsilon self in
  r.1 !! "epsilon" = Some epsilon /\
  r.1 !! "dists" = Some (VMat d) /\
  (forall name, name <> "epsilon" -> name <> "dists" ->
                name <> "evals" -> name <> "evecs" ->
                r.1 !! name = self !! name) /\
  (forall e, r.2 = Raise e ->
             r.1 !! "evals" = self !! "evals" /\ r.1 !! "evecs" = self !! "evecs") /\
  (epsilon = VNone -> r.2 = Raise TypeError).
Proof.
  unfold compute, store_selected, mbind, M_bind, bind, setattr, getattr, lift.
  cbn beta iota zeta.
  rewrite lookup_insert_ne by discriminate. rewrite lookup_insert_eq.
  cbn beta iota.
  set (s1 := <["dists" := VMat d]> (<["epsilon" := epsilon]> self)).
  assert (H1 : s1 !! "epsilon" = Some epsilon).
  { subst s1. rewrite lookup_insert_ne by discriminate. apply lookup_insert_eq. }
  assert (H2 : s1 !! "dists" = Some (VMat d)).
  { subst s1. apply lookup_insert_eq. }
  assert (H3 : forall name, name <> "epsilon" -> name <> "dists" -> s1 !! name = self !! name).
  { intros name Ha Hb. subst s1. rewrite !lookup_insert_ne by congruence. reflexivity. }
  clearbody s1.
  destruct (as_num epsilon) as [eps|ex] eqn:He; cbn beta iota.
  2:{ cbn. repeat split; auto; try discriminate; try (intros ->; discriminate);
      try (intros ->; simpl in He; congruence);
      intros; apply H3; (assumption || discriminate). }
  destruct (eig (row_normalize (gaussian_kernel d eps))) as [ev|ex]; cbn beta iota.
  2:{ cbn. repeat split; auto; try discriminate; try (intros ->; discriminate);
      try (intros ->; simpl in He; congruence);
      intros; apply H3; (assumption || discriminate). }
  destruct (s1 !! "num_evec") as [n|] eqn:Hn; cbn beta iota.
  2:{ cbn. repeat split; auto; try discriminate; try (intros ->; discriminate);
      try (intros ->; simpl in He; congruence);
      intros; apply H3; (assumption || discriminate). }
  destruct (as_int n) as [k|ex]; cbn beta iota.
  2:{ cbn. repeat split; auto; try discriminate; try (intros ->; discriminate);
      try (intros ->; simpl in He; congruence);
      intros; apply H3; (assumption || discriminate). }
  destruct (select k ev.1 ev.2) as [kept|ex]; cbn beta iota.
  2:{ cbn. repeat split; auto; try discriminate; try (intros ->; discriminate);
      try (intros ->; simpl in He; congruence);
      intros; apply H3; (assumption || discriminate). }
  cbn. repeat split; try discriminate; try (intros ->; discriminate).
  - rewrite !lookup_insert_ne by discriminate. exact H1.
  - rewrite !lookup_insert_ne by discriminate. exact H2.
  - intros name Ha Hb Hc Hd. rewrite !lookup_insert_ne by congruence. apply H3; assumption.
Qed.

End ComputeFrameFacts.
